(** * generate_rss.py: Markdown posts to an RSS 2.0 feed

    A shallow embedding of [generate_rss.py] and the properties of its header
    parser ([MarkdownFile]), its directory walk ([collect_md_files]), its
    element tree ([RssElementTree]) and its driver ([main]).

    Conventions of the embedding:
    - text is a [string] whose characters are the code points 0..255 of the
      decoded file, after the universal-newline translation that [open(path)]
      performs (every line ends in a single line feed);
    - a raised exception is the [Raise] outcome of the [result] type;
    - a [pathlib.Path] is the list of its parts, compared part by part;
    - the file system below the walked directory is a finite tree whose
      directories list their entries in the order [os.scandir] yields them;
    - the standard-library and external functions the script calls but does
      not define ([datetime.fromisoformat], [strftime], the [markdown]
      executable) and the ambient local offset are variables of the section. *)

From Stdlib Require Import String Ascii List ZArith Lia Bool Arith.
From Stdlib Require Import Sorting.Sorted Sorting.Permutation.
From Stdlib Require Import Structures.OrderedTypeEx.
From Equations Require Import Equations.
Import ListNotations.
Local Open Scope string_scope.
Local Open Scope list_scope.

Set Implicit Arguments.
Set Warnings "-register-all".

(** ** Exceptions and results *)

Inductive exn : Type :=
| InvalidMarkdownFile (msg : string)   (* class InvalidMarkdownFile(Exception) *)
| OSError (msg : string)               (* open() / os.scandir() failures *)
| TypeError (msg : string).            (* '<' between two MarkdownFile objects *)

Inductive result (A : Type) : Type :=
| Return (a : A)
| Raise (e : exn).
Arguments Return {A} a.
Arguments Raise {A} e.

Definition bind {A B : Type} (r : result A) (k : A -> result B) : result B :=
  match r with
  | Return a => k a
  | Raise e => Raise e
  end.

Notation "x <- r ;; k" := (bind r (fun x => k))
  (at level 61, r at next level, right associativity).
Notation "' p <- r ;; k" := (bind r (fun x => match x with p => k end))
  (at level 61, p pattern, r at next level, right associativity).

(** ** Python [str] methods used by the script *)

Definition LF : ascii := "010"%char.
Definition newline : string := String LF EmptyString.
Definition DQUOTE : ascii := "034"%char.

(** [str.isspace] on the code points below 256: tab to carriage return,
    the four separators 28..31, space, NEL (133) and no-break space (160). *)
Definition isspace (c : ascii) : bool :=
  let n := nat_of_ascii c in
  (Nat.leb 9 n && Nat.leb n 13) || (Nat.leb 28 n && Nat.leb n 32)
  || Nat.eqb n 133 || Nat.eqb n 160.

(** [s.startswith(p)] *)
Definition startswith (s p : string) : bool := String.prefix p s.

(** [s.lstrip(chars)] with the set of characters given as a predicate. *)
Fixpoint lstrip_by (drop : ascii -> bool) (s : string) : string :=
  match s with
  | EmptyString => EmptyString
  | String c s' => if drop c then lstrip_by drop s' else s
  end.

(** [s.rstrip(chars)] *)
Fixpoint rstrip_by (drop : ascii -> bool) (s : string) : string :=
  match s with
  | EmptyString => EmptyString
  | String c s' =>
      match rstrip_by drop s' with
      | EmptyString => if drop c then EmptyString else String c EmptyString
      | r => String c r
      end
  end.

(** [s.lstrip("#")] *)
Definition lstrip_hash (s : string) : string :=
  lstrip_by (fun c => Ascii.eqb c "#"%char) s.

(** [s.strip()] *)
Definition strip (s : string) : string := rstrip_by isspace (lstrip_by isspace s).

(** ** Text streams ([typing.TextIO])

    A stream is the whole text together with the part that has not been read
    yet; [seek0] is [stream.seek(0)]. *)

Record TextIO : Type := mkTextIO { whole : string; unread : string }.

Definition open_text (text : string) : TextIO := mkTextIO text text.

(** Splits the first line, line feed included, from the rest. *)
Fixpoint split_line (s : string) : string * string :=
  match s with
  | EmptyString => (EmptyString, EmptyString)
  | String c s' =>
      if Ascii.eqb c LF then (String c EmptyString, s')
      else let (l, r) := split_line s' in (String c l, r)
  end.

Definition readline (st : TextIO) : string * TextIO :=
  let (l, r) := split_line (unread st) in (l, mkTextIO (whole st) r).

Definition seek0 (st : TextIO) : TextIO := mkTextIO (whole st) (whole st).

Definition read (st : TextIO) : string * TextIO :=
  (unread st, mkTextIO (whole st) EmptyString).

(** ** [datetime] values *)

Module datetime.

(** [datetime.date] *)
Record date : Type := mkdate { d_year : Z; d_month : Z; d_day : Z }.

(** [datetime.time] as [datetime.time()] returns it: no [tzinfo]. *)
Record time : Type :=
  mktime { t_hour : Z; t_minute : Z; t_second : Z; t_microsecond : Z }.

(** [datetime.datetime]; [tzinfo] is the UTC offset in seconds of a fixed
    [datetime.timezone], or [None] for a naive value. *)
Record t : Type := mk {
  year : Z; month : Z; day : Z;
  hour : Z; minute : Z; second : Z; microsecond : Z;
  tzinfo : option Z
}.

(** [dt.date()] *)
Definition date_of (dt : t) : date := mkdate (year dt) (month dt) (day dt).

(** [dt.time()]: the time of day with the [tzinfo] dropped. *)
Definition time_of (dt : t) : time :=
  mktime (hour dt) (minute dt) (second dt) (microsecond dt).

(** [datetime.combine(date, time, tzinfo)] with an explicit [tzinfo]. *)
Definition combine (d : date) (tm : time) (tz : Z) : t :=
  mk (d_year d) (d_month d) (d_day d)
     (t_hour tm) (t_minute tm) (t_second tm) (t_microsecond tm) (Some tz).

(** The wall-clock reading as a tuple, most significant field first. *)
Definition clock (dt : t) : list Z :=
  [year dt; month dt; day dt; hour dt; minute dt; second dt; microsecond dt].

End datetime.

(** Lexicographic comparison of two lists under a comparison of elements:
    the order of Python sequences. *)
Fixpoint lex_compare {A : Type} (cmp : A -> A -> comparison) (l1 l2 : list A)
  : comparison :=
  match l1, l2 with
  | [], [] => Eq
  | [], _ :: _ => Lt
  | _ :: _, [] => Gt
  | x :: l1', y :: l2' =>
      match cmp x y with
      | Eq => lex_compare cmp l1' l2'
      | c => c
      end
  end.

(** ** Paths ([pathlib.Path]) *)

Definition Path : Type := list string.

(** [Path(dir_entry.path)] for the entry [name] of the directory [p]. *)
Definition joinpath (p : Path) (name : string) : Path := p ++ [name].

(** [p1 < p2] compares the parts as a sequence of strings. *)
Definition path_compare (p1 p2 : Path) : comparison :=
  lex_compare String.compare p1 p2.

Definition path_ltb (p1 p2 : Path) : bool :=
  match path_compare p1 p2 with Lt => true | _ => false end.

Definition path_eqb (p1 p2 : Path) : bool :=
  match path_compare p1 p2 with Eq => true | _ => false end.

Definition path_lt (p1 p2 : Path) : Prop := path_compare p1 p2 = Lt.

(** [str(p)] on a POSIX system. An absolute path has its root, ["/"] or
    ["//"], as first part; the root is written without a separator after
    it. *)
Definition path_str (p : Path) : string :=
  match p with
  | [] => "."
  | first :: rest =>
      if String.eqb first "/" || String.eqb first "//"
      then first ++ String.concat "/" rest
      else String.concat "/" p
  end.

(** ** The file system seen by the walk *)

Inductive fs_node : Type :=
| File (text : string)                  (* open(path) succeeds *)
| BrokenFile (err : string)             (* open(path) raises OSError *)
| Directory (entries : list dir_entry)  (* in os.scandir order *)
| BrokenDirectory (err : string)        (* os.scandir(path) raises OSError *)

(** [os.DirEntry] *)
with dir_entry : Type :=
| DirEntry (name : string) (node : fs_node).

Definition entry_name (e : dir_entry) : string :=
  match e with DirEntry name _ => name end.

Definition entry_node (e : dir_entry) : fs_node :=
  match e with DirEntry _ node => node end.

(** [dir_entry.is_dir()] *)
Definition is_dir (n : fs_node) : bool :=
  match n with
  | Directory _ | BrokenDirectory _ => true
  | File _ | BrokenFile _ => false
  end.

(** [os.scandir(path)] *)
Definition scandir (n : fs_node) : result (list dir_entry) :=
  match n with
  | Directory entries => Return entries
  | BrokenDirectory err => Raise (OSError err)
  | File _ | BrokenFile _ => Raise (OSError "Not a directory")
  end.

(** [open(path)] *)
Definition open (n : fs_node) : result TextIO :=
  match n with
  | File text => Return (open_text text)
  | BrokenFile err => Raise (OSError err)
  | Directory _ | BrokenDirectory _ => Raise (OSError "Is a directory")
  end.

(** Number of directory nodes of a tree: what the work list of the walk can
    still pop. *)
Fixpoint dir_count (n : fs_node) : nat :=
  match n with
  | File _ | BrokenFile _ => 0
  | BrokenDirectory _ => 1
  | Directory entries =>
      S ((fix entries_count (es : list dir_entry) : nat :=
            match es with
            | [] => 0
            | DirEntry _ node :: es' => dir_count node + entries_count es'
            end) entries)
  end.

Definition entries_dir_count (es : list dir_entry) : nat :=
  list_sum (map (fun e => dir_count (entry_node e)) es).

Definition pending (stack : list (Path * fs_node)) : nat :=
  list_sum (map (fun pn => dir_count (snd pn)) stack).

(** ** Inputs of the examples *)

(** A post file: title header, blank line, date header, body. *)
Definition post_text (title date body : string) : string :=
  "# " ++ title ++ newline ++ newline ++ "## " ++ date ++ newline ++ body.

(** The values of [datetime.fromisoformat] on the three date texts that the
    examples use; no other text is passed to it there except ones that are
    not ISO 8601. *)
Definition sample_fromisoformat (text : string) : option datetime.t :=
  if String.eqb text "2023-01-01" then
    Some (datetime.mk 2023 1 1 0 0 0 0 None)
  else if String.eqb text "2023-01-02" then
    Some (datetime.mk 2023 1 2 0 0 0 0 None)
  else if String.eqb text "2023-01-02T10:30:00+02:00" then
    Some (datetime.mk 2023 1 2 10 30 0 0 (Some 7200%Z))
  else None.

(** A renderer for the examples: it fails on texts that start with
    [# Broken] and wraps every other text in a paragraph. *)
Definition sample_markdown (text : string) : string + string :=
  if startswith text "# Broken" then inr "markdown: conversion failed"
  else inl ("<p>" ++ text ++ "</p>")%string.

(** A formatter for the examples; no property below reads its output. *)
Definition sample_strftime (dt : datetime.t) (format : string) : string :=
  "Sun, 01 Jan 2023 00:00:00 +0000".

Definition sample_now : datetime.t := datetime.mk 2023 1 3 12 0 0 0 None.

(** [a.md] is the later post, [b.md] the earlier one. *)
Definition alpha_beta : fs_node :=
  Directory
    [ DirEntry "a.md" (File (post_text "Alpha" "2023-01-02" "Body A"));
      DirEntry "b.md" (File (post_text "Beta" "2023-01-01" "Body B")) ].

(** Three posts, one of them in a subdirectory, and a file without headers. *)
Definition three_posts : fs_node :=
  Directory
    [ DirEntry "b.md" (File (post_text "Beta" "2023-01-01" "Body B"));
      DirEntry "2023"
        (Directory
           [ DirEntry "c.md" (File (post_text "Gamma" "2023-01-02" "Body C"));
             DirEntry "notes.txt" (File "no headers here") ]);
      DirEntry "a.md" (File (post_text "Alpha" "2023-01-02" "Body A")) ].

(** A post on which the sample renderer fails, listed before a good one. *)
Definition broken_then_good : fs_node :=
  Directory
    [ DirEntry "broken.md" (File (post_text "Broken" "2023-01-01" "Body"));
      DirEntry "good.md" (File (post_text "Good" "2023-01-02" "Body")) ].

(** The two posts of [alpha_beta], listed in the other order. *)
Definition beta_alpha : fs_node :=
  Directory
    [ DirEntry "b.md" (File (post_text "Beta" "2023-01-01" "Body B"));
      DirEntry "a.md" (File (post_text "Alpha" "2023-01-02" "Body A")) ].

(** A post listed first, then a directory that cannot be scanned and a file
    that cannot be opened. *)
Definition good_then_faults : list dir_entry * list dir_entry :=
  ( [ DirEntry "b.md" (File (post_text "Beta" "2023-01-01" "Body B")) ],
    [ DirEntry "private" (BrokenDirectory "Permission denied");
      DirEntry "locked.md" (BrokenFile "Permission denied") ] ).

(** A file without headers listed before two posts. *)
Definition notes_first : fs_node :=
  Directory
    [ DirEntry "notes.txt" (File "no headers here");
      DirEntry "b.md" (File (post_text "Beta" "2023-01-01" "Body B"));
      DirEntry "a.md" (File (post_text "Alpha" "2023-01-02" "Body A")) ].

(** A file that cannot be opened next to a good post. *)
Definition locked_file : fs_node :=
  Directory
    [ DirEntry "locked.md" (BrokenFile "Permission denied");
      DirEntry "a.md" (File (post_text "Alpha" "2023-01-02" "Body A")) ].

(** A title header with nothing after the marker. *)
Definition blank_title_text : string :=
  "# " ++ newline ++ newline ++ "## 2023-01-01" ++ newline ++ "Body".

Section GenerateRss.

Set Default Proof Using "Type".

(** [TZ_INFO]: the local UTC offset in seconds, read once at import. *)
Variable TZ_INFO : Z.

(** [datetime.datetime.fromisoformat]; [None] stands for [ValueError]. *)
Variable fromisoformat : string -> option datetime.t.

(** [dt.strftime(fmt)] *)
Variable strftime : datetime.t -> string -> string.

(** The [markdown --html4tags] process run on an input text: [inl stdout]
    on exit status 0, [inr stderr] otherwise ([CalledProcessError]). *)
Variable markdown : string -> string + string.

Definition DATETIME_FORMAT : string := "%a, %d %b %Y %X %z".

(** ** [class MarkdownFile] *)

Record MarkdownFile : Type := mkMarkdownFile {
  stream : TextIO;
  title : string;
  pub_date : datetime.t
}.

(** [MarkdownFile.__init__(self, stream)] *)
Definition MarkdownFile_init (stream0 : TextIO) : result MarkdownFile :=
  let (title_line, s1) := readline stream0 in
  let (_, s2) := readline s1 in
  let (date_line, s3) := readline s2 in
  let s4 := seek0 s3 in
  if negb (startswith title_line "# ") then
    Raise (InvalidMarkdownFile "Missing title header")
  else if negb (startswith date_line "## ") then
    Raise (InvalidMarkdownFile "Missing date header")
  else
    let title := strip (lstrip_hash title_line) in
    match fromisoformat (strip (lstrip_hash date_line)) with
    | None => Raise (InvalidMarkdownFile "Date header is not a valid ISO date")
    | Some date =>
        Return (mkMarkdownFile s4 title
                  (datetime.combine (datetime.date_of date)
                                    (datetime.time_of date) TZ_INFO))
    end.

(** [MarkdownFile.content]: the whole unread text goes to the renderer.
    [markdown] gives the two ways the process ends once it runs, exit status
    0 or [CalledProcessError]; a renderer that cannot be started is outside
    it. The position of the stream after the read is not kept: the script
    reads the content of a file once. *)
Definition MarkdownFile_content (f : MarkdownFile) : result string :=
  match markdown (fst (read (stream f))) with
  | inl stdout => Return stdout
  | inr stderr =>
      Raise (InvalidMarkdownFile
               ("Could not convert to Markdown " ++ stderr)%string)
  end.

(** ** [collect_md_files] *)

(** [target = max_files if max_files else math.inf]; [None] is [math.inf]. *)
Definition target_of (max_files : option Z) : option Z :=
  match max_files with
  | None => None
  | Some n => if Z.eqb n 0 then None else Some n
  end.

(** [len(md_files) < target] *)
Definition below {A : Type} (md_files : list A) (target : option Z) : bool :=
  match target with
  | None => true
  | Some t => Z.ltb (Z.of_nat (length md_files)) t
  end.

(** [len(md_files) >= target] *)
Definition reached {A : Type} (md_files : list A) (target : option Z) : bool :=
  match target with
  | None => false
  | Some t => Z.leb t (Z.of_nat (length md_files))
  end.

(** The state of the walk: the work list (top of the stack first), the
    accepted files in discovery order, and the skip messages. *)
Definition walk_state : Type :=
  (list (Path * fs_node) * list (Path * MarkdownFile) * list string)%type.

(** The two statements of the [try] block that can raise. A file that
    opens is taken to decode: its text is the decoded text, so reading its
    lines raises nothing. *)
Definition load (node : fs_node) : result MarkdownFile :=
  fp <- open node ;; MarkdownFile_init fp.

(** The body of [for dir_entry in os.scandir(current)]. *)
Fixpoint scan_entries (target : option Z) (current : Path)
    (entries : list dir_entry) (stack : list (Path * fs_node))
    (md_files : list (Path * MarkdownFile)) (skipped : list string)
  : result walk_state :=
  match entries with
  | [] => Return (stack, md_files, skipped)
  | DirEntry name node :: more =>
      let path := joinpath current name in
      if is_dir node then
        scan_entries target current more ((path, node) :: stack) md_files skipped
      else
        match load node with
        | Return f =>
            let md_files' := md_files ++ [(path, f)] in
            if reached md_files' target then Return (stack, md_files', skipped)
            else scan_entries target current more stack md_files' skipped
        | Raise (InvalidMarkdownFile e) =>
            let skipped' :=
              skipped ++ [("Skipped " ++ path_str path ++ ": " ++ e)%string] in
            if reached md_files target then Return (stack, md_files, skipped')
            else scan_entries target current more stack md_files skipped'
        | Raise e => Raise e
        end
  end.

(** One turn of the [while] loop once its condition holds: pop, scan. *)
Definition expand (target : option Z) (current : Path) (node : fs_node)
    (stack : list (Path * fs_node))
    (md_files : list (Path * MarkdownFile)) (skipped : list string)
  : result walk_state :=
  entries <- scandir node ;;
  scan_entries target current entries stack md_files skipped.

Lemma scan_entries_pending target current entries :
  forall stack md_files skipped stack' md_files' skipped',
    scan_entries target current entries stack md_files skipped
      = Return (stack', md_files', skipped') ->
    pending stack' <= entries_dir_count entries + pending stack.
Proof.
  induction entries as [|[name node] more IH]; intros stack md sk stack' md' sk' H;
    simpl in H.
  - injection H as <- _ _. unfold entries_dir_count. simpl. lia.
  - unfold entries_dir_count in *. simpl.
    destruct (is_dir node) eqn:Hd.
    + apply IH in H. unfold pending in *. simpl in *. lia.
    + destruct (load node) as [f|[e|e|e]];
        try discriminate.
      * destruct (reached _ target).
        -- injection H as <- _ _. lia.
        -- apply IH in H. lia.
      * destruct (reached _ target).
        -- injection H as <- _ _. lia.
        -- apply IH in H. lia.
Qed.

Lemma dir_count_Directory entries :
  dir_count (Directory entries) = S (entries_dir_count entries).
Proof.
  unfold entries_dir_count. simpl. f_equal.
  induction entries as [|[name node] more IH]; simpl; congruence.
Qed.

Lemma expand_pending target current node stack md_files skipped
      stack' md_files' skipped' :
  expand target current node stack md_files skipped
    = Return (stack', md_files', skipped') ->
  pending stack' < pending ((current, node) :: stack).
Proof.
  unfold expand. destruct node as [text|err|entries|err]; simpl; try discriminate.
  intros H. apply scan_entries_pending in H.
  change (pending stack' < dir_count (Directory entries) + pending stack).
  rewrite dir_count_Directory. lia.
Qed.

(** The [while stack and len(md_files) < target] loop. It stops because
    every turn pops one directory and pushes only directories below it. *)
Equations walk (target : option Z) (stack : list (Path * fs_node))
    (md_files : list (Path * MarkdownFile)) (skipped : list string)
  : result (list (Path * MarkdownFile) * list string)
  by wf (pending stack) lt :=
walk target [] md_files skipped := Return (md_files, skipped);
walk target ((current, node) :: stack) md_files skipped
  with below md_files target := {
  | false := Return (md_files, skipped);
  | true with Equations.Prop.Logic.inspect (expand target current node stack md_files skipped) := {
      | exist _ (Raise e) _ := Raise e;
      | exist _ (Return (stack', md_files', skipped')) Hexp :=
          walk target stack' md_files' skipped' } }.
Next Obligation.
  eapply expand_pending; eassumption.
Qed.

(** [md_files.sort()] orders the [(path, file)] tuples. Tuples compare on
    the path first; on equal paths the comparison falls through to the two
    [MarkdownFile] objects, which define no order, and raises [TypeError].
    A comparison sort has to compare two entries that end up adjacent, so
    the outcome is an error exactly when a path occurs twice, and the list
    ordered by path otherwise. *)
Fixpoint insert_by_path (x : Path * MarkdownFile)
    (l : list (Path * MarkdownFile)) : list (Path * MarkdownFile) :=
  match l with
  | [] => [x]
  | y :: l' =>
      if path_ltb (fst x) (fst y) then x :: y :: l'
      else y :: insert_by_path x l'
  end.

Fixpoint sort_by_path (l : list (Path * MarkdownFile))
  : list (Path * MarkdownFile) :=
  match l with
  | [] => []
  | x :: l' => insert_by_path x (sort_by_path l')
  end.

Fixpoint has_duplicate (ps : list Path) : bool :=
  match ps with
  | [] => false
  | p :: ps' => existsb (path_eqb p) ps' || has_duplicate ps'
  end.

Definition list_sort (md_files : list (Path * MarkdownFile))
  : result (list (Path * MarkdownFile)) :=
  if has_duplicate (map fst md_files) then
    Raise (TypeError
      "'<' not supported between instances of 'MarkdownFile' and 'MarkdownFile'")
  else Return (sort_by_path md_files).

(** [d[k] = v] on an insertion-ordered dict. *)
Fixpoint dict_set (d : list (Path * MarkdownFile)) (k : Path) (v : MarkdownFile)
  : list (Path * MarkdownFile) :=
  match d with
  | [] => [(k, v)]
  | (k', v') :: d' =>
      if path_eqb k k' then (k', v) :: d' else (k', v') :: dict_set d' k v
  end.

(** [dict(pairs)] *)
Definition dict_of (pairs : list (Path * MarkdownFile))
  : list (Path * MarkdownFile) :=
  fold_left (fun d kv => dict_set d (fst kv) (snd kv)) pairs [].

(** [collect_md_files(directory, max_files)], with [root] the node that
    [directory] names in the file system. *)
Definition collect_md_files (directory : Path) (root : fs_node)
    (max_files : option Z)
  : result (list (Path * MarkdownFile) * list string) :=
  let target := target_of max_files in
  '(md_files, skipped) <- walk target [(directory, root)] [] [] ;;
  sorted <- list_sort md_files ;;
  Return (dict_of sorted, skipped).

(** ** [class RssElementTree] *)

(** [xml.etree.ElementTree.Element]: tag, attributes in insertion order,
    text and children. *)
Inductive Element : Type :=
| mkElement (tag : string) (attrib : list (string * string))
            (text : option string) (children : list Element).

Definition tag_of (e : Element) : string :=
  match e with mkElement t _ _ _ => t end.
Definition attrib_of (e : Element) : list (string * string) :=
  match e with mkElement _ a _ _ => a end.
Definition children_of (e : Element) : list Element :=
  match e with mkElement _ _ _ c => c end.

(** [element.get(key)] *)
Fixpoint attrib_get (a : list (string * string)) (key : string)
  : option string :=
  match a with
  | [] => None
  | (k, v) :: a' => if String.eqb k key then Some v else attrib_get a' key
  end.

(** [ET.SubElement(parent, tag).text = text], seen from the child. *)
Definition text_element (tag text : string) : Element :=
  mkElement tag [] (Some text) [].

(** [element.append(child)] *)
Definition append (e child : Element) : Element :=
  match e with mkElement t a x c => mkElement t a x (c ++ [child]) end.

(** The tree keeps the root's tag and attributes and the one [channel]
    object. The constructor attaches that object to the root twice (by
    [ET.SubElement(element, "channel")] and again by
    [element.append(channel)]), so both child slots of the root show every
    later change of [self.channel]. *)
Record RssElementTree : Type := mkRssElementTree {
  root_tag : string;
  root_attrib : list (string * string);
  channel : Element
}.

(** [tree.getroot()] *)
Definition getroot (t : RssElementTree) : Element :=
  mkElement (root_tag t) (root_attrib t) None [channel t; channel t].

(** [generate_pub_date()], with [now] the reading of [datetime.now()]. *)
Definition generate_pub_date (now : datetime.t) : string :=
  strftime (datetime.combine (datetime.date_of now) (datetime.time_of now)
                             TZ_INFO)
           DATETIME_FORMAT.

(** [RssElementTree.__init__(self, title, description, url, pub_date)] *)
Definition RssElementTree_init (title description url : string)
    (pub_date : option string) (now : datetime.t) : RssElementTree :=
  let pub_date :=
    match pub_date with
    | None => generate_pub_date now
    | Some d => d
    end in
  let channel :=
    mkElement "channel" [] None
      [ text_element "title" title;
        text_element "description" description;
        text_element "link" url;
        mkElement "atom:link"
          [("href", (url ++ "feed.xml")%string); ("rel", "self");
           ("type", "application/rss+xml")] None [];
        text_element "pubDate" pub_date;
        text_element "lastBuildDate" pub_date;
        text_element "generator" "simple-site" ] in
  mkRssElementTree "rss"
    [("version", "2.0"); ("xlmns:atom", "http://www.w3.org/2005/Atom")]
    channel.

(** [RssElementTree.append_item(self, md_file)] *)
Definition append_item (t : RssElementTree) (md_file : MarkdownFile)
  : result RssElementTree :=
  content <- MarkdownFile_content md_file ;;
  let item :=
    mkElement "item" [] None
      [ text_element "title" (title md_file);
        text_element "description" content;
        text_element "pubDate" (strftime (pub_date md_file) DATETIME_FORMAT) ] in
  Return (mkRssElementTree (root_tag t) (root_attrib t)
                           (append (channel t) item)).

(** The [<item>] children of the channel, in document order. *)
Definition items (t : RssElementTree) : list Element :=
  filter (fun e => String.eqb (tag_of e) "item") (children_of (channel t)).

(** ** [main] *)

(** The message returned when nothing was collected. *)
Definition no_files_message (directory : Path) : string :=
  "No markdown files found in " ++ path_str directory
    ++ " (we are dumb and only check for " ++ String DQUOTE ".md"
    ++ String DQUOTE " file" ++ "extensions)".

(** The [for path, md_file in md_files.items()] loop; [md_file.close()]
    has no effect on the values returned. *)
Fixpoint add_items (md_files : list (Path * MarkdownFile))
    (rss_tree : RssElementTree) (included_files : list Path)
    (errors : list string)
  : result (RssElementTree * list Path * list string) :=
  match md_files with
  | [] => Return (rss_tree, included_files, errors)
  | (path, md_file) :: more =>
      match append_item rss_tree md_file with
      | Return rss_tree' =>
          add_items more rss_tree' (included_files ++ [path]) errors
      | Raise (InvalidMarkdownFile e) =>
          add_items more rss_tree included_files
            (errors ++ [("Skipped " ++ path_str path ++ ": " ++ e)%string])
      | Raise e => Raise e
      end
  end.

(** [main(directory, title, description, url, max_files)] *)
Definition main (directory : Path) (root : fs_node)
    (title description url : string) (max_files : option Z)
    (now : datetime.t)
  : result (option RssElementTree * list Path * list string) :=
  '(md_files, errors) <- collect_md_files directory root max_files ;;
  match md_files with
  | [] => Return (None, [], [no_files_message directory])
  | _ :: _ =>
      let rss_tree := RssElementTree_init title description url None now in
      '(rss_tree, included_files, errors) <- add_items md_files rss_tree [] errors ;;
      Return (Some rss_tree, included_files, errors)
  end.

(** ** Vocabulary of the properties *)

(** The first and the third line of a stream, as [__init__] reads them. *)
Definition first_line (st : TextIO) : string := fst (readline st).
Definition third_line (st : TextIO) : string :=
  fst (readline (snd (readline (snd (readline st))))).

(** Every entry below a node that is not a directory, with its path, in
    the order of the directory listings. *)
Fixpoint node_files (path : Path) (n : fs_node) : list (Path * fs_node) :=
  match n with
  | File _ | BrokenFile _ => [(path, n)]
  | BrokenDirectory _ => []
  | Directory entries =>
      (fix below_entries (es : list dir_entry) : list (Path * fs_node) :=
         match es with
         | [] => []
         | DirEntry name node :: es' =>
             node_files (joinpath path name) node ++ below_entries es'
         end) entries
  end.

Definition entries_files (path : Path) (es : list dir_entry)
  : list (Path * fs_node) :=
  flat_map (fun e => node_files (joinpath path (entry_name e)) (entry_node e)) es.

Definition stack_files (stack : list (Path * fs_node)) : list (Path * fs_node) :=
  flat_map (fun pn => node_files (fst pn) (snd pn)) stack.

(** The posts that a sequence of visited files contributes. *)
Definition accepted (files : list (Path * fs_node)) : list (Path * MarkdownFile) :=
  flat_map (fun pn => match load (snd pn) with
                      | Return f => [(fst pn, f)]
                      | Raise _ => []
                      end) files.

(** The skip messages that a sequence of visited files contributes. *)
Definition rejected (files : list (Path * fs_node)) : list string :=
  flat_map (fun pn => match load (snd pn) with
                      | Raise (InvalidMarkdownFile e) =>
                          [("Skipped " ++ path_str (fst pn) ++ ": " ++ e)%string]
                      | _ => []
                      end) files.

(** No directory below the node fails to scan and no file fails to open. *)
Fixpoint io_ok (n : fs_node) : bool :=
  match n with
  | File _ => true
  | BrokenFile _ | BrokenDirectory _ => false
  | Directory entries =>
      (fix all_ok (es : list dir_entry) : bool :=
         match es with
         | [] => true
         | DirEntry _ node :: es' => io_ok node && all_ok es'
         end) entries
  end.

Fixpoint distinct (names : list string) : bool :=
  match names with
  | [] => true
  | x :: names' => negb (existsb (String.eqb x) names') && distinct names'
  end.

(** Every directory below the node lists each name once. *)
Fixpoint names_unique (n : fs_node) : bool :=
  match n with
  | File _ | BrokenFile _ | BrokenDirectory _ => true
  | Directory entries =>
      distinct (map entry_name entries)
      && (fix all_unique (es : list dir_entry) : bool :=
            match es with
            | [] => true
            | DirEntry _ node :: es' => names_unique node && all_unique es'
            end) entries
  end.

(** A visited entry that [open] can read. *)
Definition is_file (pn : Path * fs_node) : Prop := exists text, snd pn = File text.

(** A directory on the work list that can be scanned all the way down. *)
Definition dir_ok (pn : Path * fs_node) : Prop :=
  is_dir (snd pn) = true /\ io_ok (snd pn) = true.

(** Whether the renderer succeeds on the text the file would send it. *)
Definition renders (f : MarkdownFile) : bool :=
  match markdown (unread (stream f)) with inl _ => true | inr _ => false end.

(** The message [main] records for a file on which the renderer fails. *)
Definition render_error (pf : Path * MarkdownFile) : list string :=
  match markdown (unread (stream (snd pf))) with
  | inl _ => []
  | inr stderr =>
      [("Skipped " ++ path_str (fst pf) ++ ": "
          ++ "Could not convert to Markdown " ++ stderr)%string]
  end.

(** A directory tree on which neither [os.scandir] nor [open] fails. *)
Definition healthy (root : fs_node) : Prop :=
  is_dir root = true /\ io_ok root = true /\ names_unique root = true.

(** The order of the key [(pub_date, title)]. All publication dates carry
    the same [TZ_INFO], so they compare by their clock readings. *)
Definition key_compare (f1 f2 : MarkdownFile) : comparison :=
  match lex_compare Z.compare (datetime.clock (pub_date f1))
                              (datetime.clock (pub_date f2)) with
  | Eq => String.compare (title f1) (title f2)
  | c => c
  end.

Definition key_le (x y : Path * MarkdownFile) : Prop :=
  key_compare (snd x) (snd y) <> Gt.

(** The first and the last character of a text, and whether a character
    occurs in it. *)
Definition head_char (s : string) : option ascii :=
  match s with
  | EmptyString => None
  | String c _ => Some c
  end.

Fixpoint last_char (s : string) : option ascii :=
  match s with
  | EmptyString => None
  | String c EmptyString => Some c
  | String _ s' => last_char s'
  end.

Fixpoint contains (c : ascii) (s : string) : bool :=
  match s with
  | EmptyString => false
  | String x s' => Ascii.eqb x c || contains c s'
  end.

(** A text that neither starts nor ends with whitespace. *)
Definition trimmed (s : string) : Prop :=
  (forall c, head_char s = Some c -> isspace c = false)
  /\ (forall c, last_char s = Some c -> isspace c = false).

(** A text in which a line feed can only be the last character: the shape
    of what [readline] returns. *)
Fixpoint lf_only_last (s : string) : bool :=
  match s with
  | EmptyString => true
  | String c EmptyString => true
  | String c s' => negb (Ascii.eqb c LF) && lf_only_last s'
  end.

(** The [<item>] element that [append_item] builds from a file and its
    rendered content. *)
Definition item_element (f : MarkdownFile) (content : string) : Element :=
  mkElement "item" [] None
    [ text_element "title" (title f);
      text_element "description" content;
      text_element "pubDate" (strftime (pub_date f) DATETIME_FORMAT) ].

(** The items of the files of a mapping that render, in the mapping's order. *)
Definition rendered_items (md_files : list (Path * MarkdownFile)) : list Element :=
  flat_map (fun pf => match markdown (unread (stream (snd pf))) with
                      | inl html => [item_element (snd pf) html]
                      | inr _ => []
                      end) md_files.

(** The text of the [<title>] child of an item. *)
Definition item_title (item : Element) : option string :=
  match children_of item with
  | mkElement _ _ text _ :: _ => text
  | [] => None
  end.

(** A listing entry that is a file whose headers parse. *)
Definition parses (e : dir_entry) : Prop :=
  exists text f, entry_node e = File text
                 /\ MarkdownFile_init (open_text text) = Return f.

(** The entries of a listing that are not directories, with their paths,
    in listing order: the files one scan of the directory tries. *)
Definition direct_files (path : Path) (es : list dir_entry)
  : list (Path * fs_node) :=
  flat_map (fun e => if is_dir (entry_node e) then []
                     else [(joinpath path (entry_name e), entry_node e)]) es.

(** The order in which the walk meets the entries below a node popped from
    the work list: the files of the directory in listing order, then its
    subdirectories, the last listed first, each in this same order. A
    directory that cannot be scanned, like a node that is no directory,
    stands for itself. *)
Fixpoint visit_order (path : Path) (n : fs_node) : list (Path * fs_node) :=
  match n with
  | File _ | BrokenFile _ | BrokenDirectory _ => [(path, n)]
  | Directory entries =>
      direct_files path entries
      ++ (fix subdirs (es : list dir_entry) : list (Path * fs_node) :=
            match es with
            | [] => []
            | DirEntry name node :: es' =>
                subdirs es'
                ++ (if is_dir node then visit_order (joinpath path name) node
                    else [])
            end) entries
  end.

Fixpoint subdirs_order (path : Path) (es : list dir_entry)
  : list (Path * fs_node) :=
  match es with
  | [] => []
  | e :: es' =>
      subdirs_order path es'
      ++ (if is_dir (entry_node e)
          then visit_order (joinpath path (entry_name e)) (entry_node e)
          else [])
  end.

Definition stack_order (stack : list (Path * fs_node)) : list (Path * fs_node) :=
  flat_map (fun pn => visit_order (fst pn) (snd pn)) stack.

(** Before each entry of [visited] was tried, the posts collected so far,
    starting from [md_files], were fewer than the target. *)
Definition tried_below_target (target : option Z)
    (md_files : list (Path * MarkdownFile)) (visited : list (Path * fs_node))
  : Prop :=
  forall before x after,
    visited = before ++ x :: after ->
    below (md_files ++ accepted before) target = true.

(** ** The order on paths *)

Lemma string_compare_refl (s : string) : String.compare s s = Eq.
Proof. apply String_as_OT.cmp_eq. reflexivity. Qed.

Lemma string_compare_trans (a b c : string) :
  String.compare a b = Lt -> String.compare b c = Lt -> String.compare a c = Lt.
Proof.
  intros Hab Hbc. apply String_as_OT.cmp_lt.
  apply String_as_OT.lt_trans with b; apply String_as_OT.cmp_lt; assumption.
Qed.

Lemma path_compare_eq (p q : Path) : path_compare p q = Eq <-> p = q.
Proof.
  unfold path_compare. revert q.
  induction p as [|x p IH]; intros [|y q]; simpl; split; intros H;
    try reflexivity; try discriminate.
  - destruct (String.compare x y) eqn:Hxy; try discriminate.
    apply String.compare_eq_iff in Hxy. apply IH in H. congruence.
  - injection H as -> ->. rewrite string_compare_refl. apply IH. reflexivity.
Qed.

Lemma path_compare_antisym (p q : Path) :
  path_compare q p = CompOpp (path_compare p q).
Proof.
  unfold path_compare. revert q.
  induction p as [|x p IH]; intros [|y q]; simpl; try reflexivity.
  rewrite (String.compare_antisym x y).
  destruct (String.compare y x); simpl; auto.
Qed.

Lemma path_lt_trans (p q r : Path) : path_lt p q -> path_lt q r -> path_lt p r.
Proof.
  unfold path_lt, path_compare. revert q r.
  induction p as [|x p IH]; intros [|y q] [|z r]; simpl; try discriminate; auto.
  destruct (String.compare x y) eqn:Hxy; try discriminate;
    destruct (String.compare y z) eqn:Hyz; try discriminate; intros Hpq Hqr.
  - apply String.compare_eq_iff in Hxy, Hyz. subst.
    rewrite string_compare_refl. eauto.
  - apply String.compare_eq_iff in Hxy. subst. rewrite Hyz. reflexivity.
  - apply String.compare_eq_iff in Hyz. subst. rewrite Hxy. reflexivity.
  - rewrite (string_compare_trans _ _ _ Hxy Hyz). reflexivity.
Qed.

Lemma path_lt_irrefl (p : Path) : ~ path_lt p p.
Proof.
  unfold path_lt. intros H.
  assert (E : path_compare p p = Eq) by (apply path_compare_eq; reflexivity).
  congruence.
Qed.

Lemma path_eqb_true (p q : Path) : path_eqb p q = true <-> p = q.
Proof.
  unfold path_eqb. rewrite <- path_compare_eq.
  destruct (path_compare p q); split; congruence.
Qed.

Lemma path_ltb_false (p q : Path) :
  path_ltb p q = false -> p = q \/ path_lt q p.
Proof.
  unfold path_ltb, path_lt. rewrite (path_compare_antisym p q).
  destruct (path_compare p q) eqn:H; try discriminate; intros _.
  - left. apply path_compare_eq. assumption.
  - right. reflexivity.
Qed.

(** ** [list.sort] and [dict] *)

Lemma has_duplicate_false (ps : list Path) :
  has_duplicate ps = false <-> NoDup ps.
Proof.
  induction ps as [|p ps IH]; simpl.
  - split; [constructor | reflexivity].
  - rewrite orb_false_iff, IH. split.
    + intros [Hex Hnd]. constructor; [|assumption].
      intros Hin. assert (existsb (path_eqb p) ps = true); [|congruence].
      apply existsb_exists. exists p. split; [assumption|].
      apply path_eqb_true. reflexivity.
    + intros Hnd. inversion Hnd as [|? ? Hnin Hnd']; subst. split; [|assumption].
      destruct (existsb (path_eqb p) ps) eqn:Hex; [|reflexivity].
      apply existsb_exists in Hex. destruct Hex as [q [Hq Heq]].
      apply path_eqb_true in Heq. subst. contradiction.
Qed.

Lemma insert_by_path_perm x l : Permutation (insert_by_path x l) (x :: l).
Proof.
  induction l as [|y l IH]; simpl; [reflexivity|].
  destruct (path_ltb (fst x) (fst y)); [reflexivity|].
  rewrite IH. apply perm_swap.
Qed.

Lemma sort_by_path_perm l : Permutation (sort_by_path l) l.
Proof.
  induction l as [|x l IH]; simpl; [reflexivity|].
  rewrite insert_by_path_perm. constructor. assumption.
Qed.

Lemma insert_by_path_sorted x l :
  ~ In (fst x) (map fst l) ->
  StronglySorted path_lt (map fst l) ->
  StronglySorted path_lt (map fst (insert_by_path x l)).
Proof.
  induction l as [|y l IH]; simpl; intros Hnin Hs.
  - constructor; constructor.
  - inversion Hs as [|? ? Hs' Hall]; subst.
    destruct (path_ltb (fst x) (fst y)) eqn:Hlt; simpl.
    + assert (Hxy : path_lt (fst x) (fst y)).
      { unfold path_ltb in Hlt. unfold path_lt.
        destruct (path_compare (fst x) (fst y)); congruence. }
      constructor; [assumption|]. constructor; [assumption|].
      eapply Forall_impl; [|exact Hall].
      intros q Hq. eapply path_lt_trans; eassumption.
    + apply path_ltb_false in Hlt. destruct Hlt as [Heq|Hyx].
      { exfalso. apply Hnin. left. congruence. }
      constructor.
      * apply IH; [|assumption]. intros Hin. apply Hnin. right. assumption.
      * apply Forall_forall. intros q Hq.
        assert (Hq' : In q (map fst (x :: l))).
        { eapply Permutation_in; [|exact Hq].
          apply Permutation_map. apply insert_by_path_perm. }
        destruct Hq' as [<-|Hq']; [assumption|].
        rewrite Forall_forall in Hall. auto.
Qed.

Lemma sort_by_path_sorted l :
  NoDup (map fst l) -> StronglySorted path_lt (map fst (sort_by_path l)).
Proof.
  induction l as [|x l IH]; simpl; intros Hnd; [constructor|].
  inversion Hnd as [|? ? Hnin Hnd']; subst.
  apply insert_by_path_sorted; [|auto].
  intros Hin. apply Hnin.
  eapply Permutation_in; [|exact Hin].
  apply Permutation_map. apply sort_by_path_perm.
Qed.

Lemma dict_set_fresh d k v :
  ~ In k (map fst d) -> dict_set d k v = d ++ [(k, v)].
Proof.
  induction d as [|[k' v'] d IH]; simpl; intros Hnin; [reflexivity|].
  destruct (path_eqb k k') eqn:Heq.
  - apply path_eqb_true in Heq. exfalso. apply Hnin. left. congruence.
  - rewrite IH; [reflexivity|]. intros Hin. apply Hnin. right. assumption.
Qed.

Lemma fold_dict_set_nodup pairs : forall d,
  NoDup (map fst (d ++ pairs)) ->
  fold_left (fun d kv => dict_set d (fst kv) (snd kv)) pairs d = d ++ pairs.
Proof.
  induction pairs as [|[k v] pairs IH]; intros d Hnd; simpl.
  - rewrite app_nil_r. reflexivity.
  - rewrite dict_set_fresh.
    + rewrite IH; rewrite <- app_assoc; [reflexivity | exact Hnd].
    + rewrite map_app in Hnd. simpl in Hnd.
      apply NoDup_remove_2 in Hnd. intros Hin. apply Hnd.
      apply in_or_app. left. assumption.
Qed.

Lemma dict_of_nodup pairs : NoDup (map fst pairs) -> dict_of pairs = pairs.
Proof. intros Hnd. unfold dict_of. rewrite fold_dict_set_nodup; auto. Qed.

(** ** The walk *)

Lemma scan_entries_bound N current entries :
  forall stack md_files skipped stack' md_files' skipped',
    (Z.of_nat (length md_files) < N)%Z ->
    scan_entries (Some N) current entries stack md_files skipped
      = Return (stack', md_files', skipped') ->
    (Z.of_nat (length md_files') <= N)%Z.
Proof.
  induction entries as [|[name node] more IH];
    intros stack md sk stack' md' sk' Hlt H; simpl in H.
  - injection H as _ <- _. lia.
  - destruct (is_dir node); [eapply IH; eassumption|].
    destruct (load node) as [f|[e|e|e]]; try discriminate.
    + unfold reached in H.
      destruct (Z.leb_spec N (Z.of_nat (length (md ++ [(joinpath current name, f)])))).
      * injection H as _ <- _. rewrite length_app in *. simpl in *. lia.
      * eapply IH; eassumption.
    + unfold reached in H. destruct (Z.leb_spec N (Z.of_nat (length md))).
      * injection H as _ <- _. lia.
      * eapply IH; eassumption.
Qed.

Lemma expand_Return target current node stack md_files skipped st :
  expand target current node stack md_files skipped = Return st ->
  exists entries,
    node = Directory entries
    /\ scan_entries target current entries stack md_files skipped = Return st.
Proof.
  unfold expand. destruct node as [text|err|entries|err]; simpl; try discriminate.
  eauto.
Qed.

(** After [funelim] on [walk]: drop the bookkeeping equations of the
    [inspect] pattern. *)
Ltac tidy_walk :=
  repeat match goal with
         | H : @eq (sigma _) _ _ |- _ => clear H
         end.

Lemma walk_bound N stack md_files skipped :
  forall md_files' skipped',
    (Z.of_nat (length md_files) <= N)%Z ->
    walk (Some N) stack md_files skipped = Return (md_files', skipped') ->
    (Z.of_nat (length md_files') <= N)%Z.
Proof.
  remember (Some N) as target eqn:Ht.
  funelim (walk target stack md_files skipped); intros md1 sk1 Hle Hw.
  - injection Hw as <- _. assumption.
  - injection Hw as <- _. assumption.
  - tidy_walk.
    match goal with IH : forall N0, Some _ = Some N0 -> _ |- _ =>
      eapply (IH _ eq_refl); [|exact Hw] end.
    apply expand_Return in Hexp. destruct Hexp as (entries & _ & Hexp).
    eapply scan_entries_bound; [|exact Hexp].
    unfold below in Heq. lia.
  - discriminate.
Qed.

Lemma node_files_Directory path entries :
  node_files path (Directory entries) = entries_files path entries.
Proof.
  unfold entries_files. simpl.
  induction entries as [|[name node] more IH]; simpl; congruence.
Qed.

Lemma stack_files_app s1 s2 : stack_files (s1 ++ s2) = stack_files s1 ++ stack_files s2.
Proof. unfold stack_files. apply flat_map_app. Qed.

Lemma accepted_app l1 l2 : accepted (l1 ++ l2) = accepted l1 ++ accepted l2.
Proof. unfold accepted. apply flat_map_app. Qed.

Lemma rejected_app l1 l2 : rejected (l1 ++ l2) = rejected l1 ++ rejected l2.
Proof. unfold rejected. apply flat_map_app. Qed.

Lemma load_cases node :
  is_dir node = false ->
  match load node with
  | Return _ | Raise (InvalidMarkdownFile _) => exists text, node = File text
  | Raise (OSError _) => exists err, node = BrokenFile err
  | Raise (TypeError _) => False
  end.
Proof.
  destruct node as [text|err|entries|err]; simpl; try discriminate; intros _.
  - unfold load. simpl. unfold MarkdownFile_init.
    destruct (readline (open_text text)) as [l1 s1].
    destruct (readline s1) as [l2 s2]. destruct (readline s2) as [l3 s3].
    destruct (negb (startswith l1 "# ")); [eauto|].
    destruct (negb (startswith l3 "## ")); [eauto|].
    destruct (fromisoformat _); eauto.
  - eauto.
Qed.

Lemma perm_rotate {A : Type} (a b c d : list A) :
  Permutation (a ++ b ++ c ++ d) (c ++ a ++ b ++ d).
Proof.
  replace (a ++ b ++ c ++ d) with (((a ++ b) ++ c) ++ d)
    by (rewrite <- !app_assoc; reflexivity).
  replace (c ++ a ++ b ++ d) with ((c ++ (a ++ b)) ++ d)
    by (rewrite <- !app_assoc; reflexivity).
  apply Permutation_app_tail. apply Permutation_app_comm.
Qed.

(** What a scan of one directory listing contributes: the files it tried,
    in order, the directories it pushed, and the entries left untouched by
    a [break]. *)
Lemma scan_entries_visits target current entries :
  forall stack md_files skipped stack' md_files' skipped',
    scan_entries target current entries stack md_files skipped
      = Return (stack', md_files', skipped') ->
    exists visited pushed rest,
      stack' = pushed ++ stack
      /\ md_files' = md_files ++ accepted visited
      /\ skipped' = skipped ++ rejected visited
      /\ Forall is_file visited
      /\ Forall (fun pn => is_dir (snd pn) = true) pushed
      /\ Permutation (visited ++ stack_files pushed ++ rest)
                     (entries_files current entries)
      /\ (target = None -> rest = []).
Proof.
  induction entries as [|[name node] more IH];
    intros stack md sk stack' md' sk' H; simpl in H.
  - injection H as <- <- <-. exists [], [], []. simpl.
    rewrite !app_nil_r. repeat split; auto.
  - unfold entries_files. simpl. fold (entries_files current more).
    destruct (is_dir node) eqn:Hdir.
    + apply IH in H.
      destruct H as (visited & pushed & rest & -> & -> & -> & Hf & Hd & Hp & Hr).
      exists visited, (pushed ++ [(joinpath current name, node)]), rest.
      rewrite <- app_assoc. simpl.
      split; [reflexivity|]. split; [reflexivity|]. split; [reflexivity|].
      split; [assumption|]. split; [|split; [|assumption]].
      * apply Forall_app. split; [assumption|]. constructor; [assumption|constructor].
      * rewrite stack_files_app. simpl. rewrite app_nil_r.
        rewrite <- Hp, <- !app_assoc. apply perm_rotate.
    + pose proof (load_cases node Hdir) as Hload.
      assert (Hnf : node_files (joinpath current name) node
                    = [(joinpath current name, node)]).
      { destruct node; simpl in *; try discriminate; reflexivity. }
      rewrite Hnf. simpl.
      destruct (load node) as [f|[e|e|e]] eqn:Hl; try discriminate.
      * destruct (reached _ target) eqn:Hr.
        -- injection H as <- <- <-.
           exists [(joinpath current name, node)], [], (entries_files current more).
           unfold accepted, rejected. simpl. rewrite Hl. simpl.
           rewrite !app_nil_r.
           split; [reflexivity|]. split; [reflexivity|]. split; [reflexivity|].
           split; [constructor; [exact Hload|constructor]|].
           split; [constructor|]. split; [reflexivity|].
           intros ->. discriminate.
        -- apply IH in H.
           destruct H as (visited & pushed & rest & -> & -> & -> & Hf & Hd & Hp & Hr').
           exists ((joinpath current name, node) :: visited), pushed, rest.
           unfold accepted, rejected. simpl. rewrite Hl. simpl.
           rewrite <- !app_assoc. simpl.
           split; [reflexivity|]. split; [reflexivity|]. split; [reflexivity|].
           split; [constructor; [exact Hload|assumption]|].
           split; [assumption|]. split; [|assumption].
           constructor. assumption.
      * destruct (reached _ target) eqn:Hr.
        -- injection H as <- <- <-.
           exists [(joinpath current name, node)], [], (entries_files current more).
           unfold accepted, rejected. simpl. rewrite Hl. simpl.
           rewrite !app_nil_r.
           split; [reflexivity|]. split; [reflexivity|]. split; [reflexivity|].
           split; [constructor; [exact Hload|constructor]|].
           split; [constructor|]. split; [reflexivity|].
           intros ->. discriminate.
        -- apply IH in H.
           destruct H as (visited & pushed & rest & -> & -> & -> & Hf & Hd & Hp & Hr').
           exists ((joinpath current name, node) :: visited), pushed, rest.
           unfold accepted, rejected. simpl. rewrite Hl. simpl.
           rewrite <- !app_assoc. simpl.
           split; [reflexivity|]. split; [reflexivity|]. split; [reflexivity|].
           split; [constructor; [exact Hload|assumption]|].
           split; [assumption|]. split; [|assumption].
           constructor. assumption.
Qed.

Lemma stack_files_cons path node stack :
  stack_files ((path, node) :: stack) = node_files path node ++ stack_files stack.
Proof. reflexivity. Qed.

(** What a whole walk contributes. Without a bound nothing is left out. *)
Lemma walk_visits target stack md_files skipped :
  forall md_files' skipped',
    walk target stack md_files skipped = Return (md_files', skipped') ->
    exists visited rest,
      md_files' = md_files ++ accepted visited
      /\ skipped' = skipped ++ rejected visited
      /\ Forall is_file visited
      /\ Permutation (visited ++ rest) (stack_files stack)
      /\ (target = None -> rest = []).
Proof.
  funelim (walk target stack md_files skipped); intros md1 sk1 Hw; tidy_walk.
  - injection Hw as <- <-. exists [], []. simpl. rewrite !app_nil_r.
    repeat apply conj; auto.
  - injection Hw as <- <-.
    exists [], (stack_files ((current, node) :: stack)). simpl. rewrite !app_nil_r.
    repeat apply conj; auto. intros ->. discriminate.
  - apply expand_Return in Hexp. destruct Hexp as (entries & -> & Hscan).
    apply scan_entries_visits in Hscan.
    destruct Hscan as (v1 & pushed & r1 & -> & -> & -> & Hf1 & _ & Hp1 & Hr1).
    match goal with IH : forall md sk, walk _ _ _ _ = _ -> _ |- _ =>
      destruct (IH _ _ Hw) as (v2 & r2 & -> & -> & Hf2 & Hp2 & Hr2) end.
    exists (v1 ++ v2), (r1 ++ r2).
    rewrite accepted_app, rejected_app, <- !app_assoc.
    split; [reflexivity|]. split; [reflexivity|].
    split; [apply Forall_app; auto|]. split.
    + rewrite stack_files_cons, node_files_Directory, <- Hp1, <- !app_assoc.
      apply Permutation_app_head.
      rewrite stack_files_app in Hp2.
      rewrite (Permutation_app_swap_app v2 r1 r2).
      rewrite (Permutation_app_swap_app (stack_files pushed) r1 (stack_files stack)).
      apply Permutation_app_head. exact Hp2.
    + intros Ht. rewrite (Hr1 Ht), (Hr2 Ht). reflexivity.
  - discriminate.
Qed.

Lemma io_ok_Directory entries :
  io_ok (Directory entries) = true <->
  (forall e, In e entries -> io_ok (entry_node e) = true).
Proof.
  simpl. induction entries as [|[name node] more IH]; simpl.
  - split; [intros _ e []|reflexivity].
  - rewrite andb_true_iff, IH. split.
    + intros [Hn Hm] e [<-|He]; auto.
    + intros H. split; [apply (H (DirEntry name node)); auto|].
      intros e He. apply H. auto.
Qed.

Lemma scan_entries_total target current entries :
  (forall e, In e entries -> io_ok (entry_node e) = true) ->
  forall stack md_files skipped,
    Forall dir_ok stack ->
    exists stack' md_files' skipped',
      scan_entries target current entries stack md_files skipped
        = Return (stack', md_files', skipped')
      /\ Forall dir_ok stack'.
Proof.
  induction entries as [|[name node] more IH]; intros Hok stack md sk Hst; simpl.
  - eauto.
  - assert (Hnode : io_ok node = true) by (apply (Hok (DirEntry name node)); simpl; auto).
    assert (Hmore : forall e, In e more -> io_ok (entry_node e) = true)
      by (intros e He; apply Hok; simpl; auto).
    destruct (is_dir node) eqn:Hdir.
    + apply IH; [assumption|]. constructor; [split; assumption|assumption].
    + pose proof (load_cases node Hdir) as Hload.
      destruct (load node) as [f|[e|e|e]].
      * destruct (reached _ target); eauto.
      * destruct (reached _ target); eauto.
      * destruct Hload as [err ->]. discriminate.
      * contradiction.
Qed.

(** On a tree without I/O faults the walk returns, whatever the bound. *)
Lemma walk_total target stack md_files skipped :
  Forall dir_ok stack ->
  exists r, walk target stack md_files skipped = Return r.
Proof.
  funelim (walk target stack md_files skipped); intros Hst; tidy_walk; eauto.
  - apply expand_Return in Hexp. destruct Hexp as (entries & -> & Hscan).
    inversion Hst as [|? ? [_ Hok] Hst']; subst. simpl in Hok.
    destruct (scan_entries_total target current entries
                (proj1 (io_ok_Directory entries) Hok) md_files skipped Hst')
      as (s' & m' & k' & Hscan' & Hst'').
    rewrite Hscan in Hscan'. injection Hscan' as <- <- <-. auto.
  - exfalso. inversion Hst as [|? ? [Hd Hok] Hst']; subst. simpl in Hd, Hok.
    destruct node as [text|err|entries|err]; try discriminate.
    destruct (scan_entries_total target current entries
                (proj1 (io_ok_Directory entries) Hok) md_files skipped Hst')
      as (s' & m' & k' & Hscan' & _).
    unfold expand in *. simpl in *. congruence.
Qed.

Lemma scan_entries_raises target current entries :
  forall stack md_files skipped e,
    scan_entries target current entries stack md_files skipped = Raise e ->
    exists msg, e = OSError msg.
Proof.
  induction entries as [|[name node] more IH]; intros stack md sk e H; simpl in H.
  - discriminate.
  - destruct (is_dir node) eqn:Hdir; [eauto|].
    pose proof (load_cases node Hdir) as Hload.
    destruct (load node) as [f|[e'|e'|e']].
    + destruct (reached _ target); [discriminate|eauto].
    + destruct (reached _ target); [discriminate|eauto].
    + injection H as <-. eauto.
    + contradiction.
Qed.

(** The only exception that leaves the walk is [OSError]. *)
Lemma walk_raises target stack md_files skipped :
  forall e, walk target stack md_files skipped = Raise e ->
            exists msg, e = OSError msg.
Proof.
  funelim (walk target stack md_files skipped); intros e' Hw; tidy_walk;
    try discriminate; eauto.
  injection Hw as <-. unfold expand in *.
  destruct node as [text|err|entries|err]; simpl in *;
    try (injection e1 as <-; eauto).
  eapply scan_entries_raises; eassumption.
Qed.

(** ** Paths of a tree are distinct *)

Lemma fs_node_nested_ind (P : fs_node -> Prop) :
  (forall text, P (File text)) ->
  (forall err, P (BrokenFile err)) ->
  (forall entries, Forall (fun e => P (entry_node e)) entries ->
                   P (Directory entries)) ->
  (forall err, P (BrokenDirectory err)) ->
  forall n, P n.
Proof.
  intros HF HB HD HBD. fix IH 1.
  intros [text|err|entries|err]; [apply HF | apply HB | | apply HBD].
  apply HD. revert entries. fix IHes 1. intros [|[name node] more].
  - constructor.
  - constructor; [apply IH | apply IHes].
Qed.

Lemma node_files_prefix n : forall path p n',
  In (p, n') (node_files path n) -> exists suffix, p = path ++ suffix.
Proof.
  induction n as [text|err|entries IH|err] using fs_node_nested_ind;
    intros path p n' Hin.
  - destruct Hin as [[= <- <-]|[]]. exists []. rewrite app_nil_r. reflexivity.
  - destruct Hin as [[= <- <-]|[]]. exists []. rewrite app_nil_r. reflexivity.
  - rewrite node_files_Directory in Hin. unfold entries_files in Hin.
    apply in_flat_map in Hin. destruct Hin as (e & He & Hin).
    rewrite Forall_forall in IH. apply (IH e He) in Hin.
    destruct Hin as [suffix ->]. unfold joinpath. rewrite <- app_assoc. eauto.
  - destruct Hin.
Qed.

Lemma distinct_cons x names :
  distinct (x :: names) = true <-> ~ In x names /\ distinct names = true.
Proof.
  simpl. rewrite andb_true_iff, negb_true_iff. split; intros [H1 H2]; split; auto.
  - intros Hin. assert (existsb (String.eqb x) names = true); [|congruence].
    apply existsb_exists. exists x. split; [assumption|apply String.eqb_refl].
  - destruct (existsb (String.eqb x) names) eqn:Hex; [|reflexivity].
    apply existsb_exists in Hex. destruct Hex as (y & Hy & Heq).
    apply String.eqb_eq in Heq. subst. contradiction.
Qed.

Lemma names_unique_Directory entries :
  names_unique (Directory entries) = true <->
  distinct (map entry_name entries) = true
  /\ (forall e, In e entries -> names_unique (entry_node e) = true).
Proof.
  simpl. rewrite andb_true_iff.
  assert (H : forall es,
    (fix all_unique (es : list dir_entry) : bool :=
       match es with
       | [] => true
       | DirEntry _ node :: es' => names_unique node && all_unique es'
       end) es = true <->
    (forall e, In e es -> names_unique (entry_node e) = true)).
  { induction es as [|[name node] more IH].
    - split; [intros _ e []|reflexivity].
    - rewrite andb_true_iff, IH. split.
      + intros [Hn Hm] e [<-|He]; auto.
      + intros H. split; [apply (H (DirEntry name node)); simpl; auto|].
        intros e He. apply H. simpl. auto. }
  rewrite H. reflexivity.
Qed.

Lemma node_files_nodup n : forall path,
  names_unique n = true -> NoDup (map fst (node_files path n)).
Proof.
  induction n as [text|err|entries IH|err] using fs_node_nested_ind;
    intros path Hu;
    try (simpl; constructor; [intros []|constructor]); try constructor.
  rewrite node_files_Directory.
  apply names_unique_Directory in Hu. destruct Hu as [Hd Hu].
  induction entries as [|[name node] more IHm]; [constructor|].
  unfold entries_files. simpl. fold (entries_files path more).
  apply distinct_cons in Hd. destruct Hd as [Hnin Hd].
  inversion IH as [|? ? IHnode IHmore]; subst.
  rewrite map_app. apply NoDup_app.
  - apply IHnode. apply (Hu (DirEntry name node)). simpl. auto.
  - apply IHm; [exact IHmore|exact Hd|]. intros e He. apply Hu. simpl. auto.
  - intros p Hp1 Hp2.
    apply in_map_iff in Hp1. destruct Hp1 as ([p1 n1] & <- & Hp1).
    apply in_map_iff in Hp2. destruct Hp2 as ([p2 n2] & Heq & Hp2).
    simpl in Heq. subst p2.
    apply node_files_prefix in Hp1. destruct Hp1 as [s1 Hs1].
    unfold entries_files in Hp2. apply in_flat_map in Hp2.
    destruct Hp2 as (e & He & Hp2).
    apply node_files_prefix in Hp2. destruct Hp2 as [s2 Hs2].
    rewrite Hs1 in Hs2. unfold joinpath in Hs2. rewrite <- !app_assoc in Hs2.
    apply app_inv_head in Hs2. simpl in Hs2. injection Hs2 as Hname _.
    apply Hnin. simpl. rewrite Hname. apply (in_map entry_name). exact He.
Qed.

Lemma accepted_keys files p :
  In p (map fst (accepted files)) -> In p (map fst files).
Proof.
  induction files as [|[q n] files IH]; simpl; [auto|].
  unfold accepted. simpl. fold (accepted files).
  destruct (load n); simpl; [intros [Hp|Hp]|]; auto.
Qed.

Lemma accepted_nodup files :
  NoDup (map fst files) -> NoDup (map fst (accepted files)).
Proof.
  induction files as [|[q n] files IH]; simpl; intros Hnd; [constructor|].
  inversion Hnd as [|? ? Hnin Hnd']; subst.
  unfold accepted. simpl. fold (accepted files).
  destruct (load n); simpl; auto.
  constructor; auto. intros Hin. apply Hnin. apply accepted_keys. assumption.
Qed.

(** ** [collect_md_files] as a whole *)

Lemma collect_inv directory root max_files m skipped :
  collect_md_files directory root max_files = Return (m, skipped) ->
  exists md_files,
    walk (target_of max_files) [(directory, root)] [] [] = Return (md_files, skipped)
    /\ NoDup (map fst md_files)
    /\ m = sort_by_path md_files.
Proof.
  unfold collect_md_files.
  destruct (walk _ _ _ _) as [[md sk]|e]; simpl; [|discriminate].
  unfold list_sort. destruct (has_duplicate (map fst md)) eqn:Hd; simpl; [discriminate|].
  apply has_duplicate_false in Hd. intros [= <- <-].
  exists md. repeat split; auto.
  apply dict_of_nodup.
  eapply Permutation_NoDup; [|exact Hd].
  apply Permutation_map. symmetry. apply sort_by_path_perm.
Qed.

Lemma collect_visits directory root max_files m skipped :
  collect_md_files directory root max_files = Return (m, skipped) ->
  exists visited rest,
    Permutation m (accepted visited)
    /\ skipped = rejected visited
    /\ Forall is_file visited
    /\ Permutation (visited ++ rest) (node_files directory root)
    /\ (target_of max_files = None -> rest = []).
Proof.
  intros H. apply collect_inv in H. destruct H as (md & Hw & _ & ->).
  apply walk_visits in Hw.
  destruct Hw as (visited & rest & -> & -> & Hf & Hp & Hr).
  exists visited, rest. simpl in *. rewrite app_nil_r in Hp.
  repeat split; auto. apply sort_by_path_perm.
Qed.

Lemma collect_sorted directory root max_files m skipped :
  collect_md_files directory root max_files = Return (m, skipped) ->
  StronglySorted path_lt (map fst m) /\ NoDup (map fst m).
Proof.
  intros H. apply collect_inv in H. destruct H as (md & _ & Hnd & ->). split.
  - apply sort_by_path_sorted. assumption.
  - eapply Permutation_NoDup; [|exact Hnd].
    apply Permutation_map. symmetry. apply sort_by_path_perm.
Qed.

Lemma collect_total directory root max_files :
  healthy root ->
  exists m skipped, collect_md_files directory root max_files = Return (m, skipped).
Proof.
  intros (Hdir & Hok & Hu).
  destruct (@walk_total (target_of max_files) [(directory, root)] [] [])
    as [[md sk] Hw].
  { constructor; [split; assumption|constructor]. }
  assert (Hnd : NoDup (map fst md)).
  { pose proof Hw as Hv. apply walk_visits in Hv.
    destruct Hv as (visited & rest & -> & _ & _ & Hp & _).
    simpl in *. rewrite app_nil_r in Hp. apply accepted_nodup.
    apply (NoDup_app_remove_r _ (map fst rest)). rewrite <- map_app.
    eapply Permutation_NoDup;
      [apply Permutation_map; symmetry; exact Hp|].
    apply node_files_nodup. assumption. }
  unfold collect_md_files. rewrite Hw. simpl. unfold list_sort.
  apply has_duplicate_false in Hnd. rewrite Hnd. simpl. eauto.
Qed.

(** ** The header parser *)

Lemma MarkdownFile_init_Return (s : TextIO) (f : MarkdownFile) :
  MarkdownFile_init s = Return f ->
  startswith (first_line s) "# " = true
  /\ startswith (third_line s) "## " = true
  /\ exists date,
       fromisoformat (strip (lstrip_hash (third_line s))) = Some date
       /\ f = mkMarkdownFile
                (seek0 (snd (readline (snd (readline (snd (readline s)))))))
                (strip (lstrip_hash (first_line s)))
                (datetime.combine (datetime.date_of date)
                                  (datetime.time_of date) TZ_INFO).
Proof.
  unfold MarkdownFile_init, first_line, third_line.
  destruct (readline s) as [l1 s1]. simpl.
  destruct (readline s1) as [l2 s2]. simpl.
  destruct (readline s2) as [l3 s3]. simpl.
  destruct (startswith l1 "# "); simpl; [|discriminate].
  destruct (startswith l3 "## "); simpl; [|discriminate].
  destruct (fromisoformat (strip (lstrip_hash l3))) as [date|]; [|discriminate].
  intros [= <-]. split; [reflexivity|]. split; [reflexivity|].
  exists date. split; reflexivity.
Qed.

Lemma MarkdownFile_init_Raise (s : TextIO) (e : exn) :
  MarkdownFile_init s = Raise e -> exists msg, e = InvalidMarkdownFile msg.
Proof.
  unfold MarkdownFile_init.
  destruct (readline s) as [l1 s1]. destruct (readline s1) as [l2 s2].
  destruct (readline s2) as [l3 s3].
  destruct (negb (startswith l1 "# ")); [intros [= <-]; eauto|].
  destruct (negb (startswith l3 "## ")); [intros [= <-]; eauto|].
  destruct (fromisoformat _); [discriminate|intros [= <-]; eauto].
Qed.

Lemma readline_whole (s : TextIO) : whole (snd (readline s)) = whole s.
Proof. unfold readline. destruct (split_line (unread s)). reflexivity. Qed.

(** Parsing is not destructive: the stream kept by the file is rewound. *)
Lemma MarkdownFile_init_stream (text : string) (f : MarkdownFile) :
  MarkdownFile_init (open_text text) = Return f -> stream f = open_text text.
Proof.
  intros H. apply MarkdownFile_init_Return in H.
  destruct H as (_ & _ & date & _ & ->). simpl. unfold seek0.
  rewrite !readline_whole. reflexivity.
Qed.

Lemma in_accepted files path f :
  In (path, f) (accepted files) <->
  exists node, In (path, node) files /\ load node = Return f.
Proof.
  unfold accepted. rewrite in_flat_map. split.
  - intros ([p n] & Hin & Hf). simpl in Hf.
    destruct (load n) as [f'|e] eqn:Hl; [|destruct Hf].
    destruct Hf as [[= <- <-]|[]]. eauto.
  - intros (node & Hin & Hl). exists (path, node). simpl. rewrite Hl.
    split; [assumption|left; reflexivity].
Qed.

(** Every collected post is a file of the tree whose headers parse. *)
Lemma collected_from_tree directory root max_files m skipped path f :
  collect_md_files directory root max_files = Return (m, skipped) ->
  In (path, f) m ->
  exists text,
    In (path, File text) (node_files directory root)
    /\ MarkdownFile_init (open_text text) = Return f
    /\ stream f = open_text text.
Proof.
  intros Hc Hin. apply collect_visits in Hc.
  destruct Hc as (visited & rest & Hp & _ & Hf & Hv & _).
  apply (Permutation_in _ Hp) in Hin. apply in_accepted in Hin.
  destruct Hin as (node & Hin & Hl).
  rewrite Forall_forall in Hf. destruct (Hf _ Hin) as [text Ht].
  simpl in Ht. subst node. exists text. unfold load in Hl. simpl in Hl.
  repeat split; auto.
  - eapply Permutation_in; [exact Hv|]. apply in_or_app. left. assumption.
  - apply MarkdownFile_init_stream. assumption.
Qed.

(** ** The item loop of [main] *)

(** The loop never raises: it includes the files that render and records
    one message for each file that does not. *)
Lemma add_items_closed md_files :
  forall rss_tree included errors,
  exists rss_tree',
    add_items md_files rss_tree included errors
      = Return (rss_tree',
                included ++ map fst (filter (fun pf => renders (snd pf)) md_files),
                errors ++ flat_map render_error md_files).
Proof.
  induction md_files as [|[path f] more IH]; intros tree inc errs; simpl.
  - rewrite !app_nil_r. eauto.
  - unfold append_item, MarkdownFile_content, renders, render_error. simpl.
    destruct (markdown (unread (stream f))) as [stdout|stderr]; simpl.
    + match goal with
      | |- exists t, add_items more ?tree1 ?inc1 ?errs1 = _ =>
          destruct (IH tree1 inc1 errs1) as [tree' Ht]
      end.
      exists tree'. rewrite <- app_assoc in Ht. exact Ht.
    + match goal with
      | |- exists t, add_items more ?tree1 ?inc1 ?errs1 = _ =>
          destruct (IH tree1 inc1 errs1) as [tree' Ht]
      end.
      exists tree'. rewrite <- app_assoc in Ht. exact Ht.
Qed.

Lemma nodup_keys_functional {V : Type} (l : list (Path * V)) k v v' :
  NoDup (map fst l) -> In (k, v) l -> In (k, v') l -> v = v'.
Proof.
  induction l as [|[k0 v0] l IH]; simpl; intros Hnd H1 H2; [destruct H1|].
  inversion Hnd as [|? ? Hnin Hnd']; subst.
  destruct H1 as [E1|H1], H2 as [E2|H2]; auto.
  - congruence.
  - exfalso. apply Hnin. apply (in_map fst) in H2. simpl in H2. congruence.
  - exfalso. apply Hnin. apply (in_map fst) in H1. simpl in H1. congruence.
Qed.

Lemma filter_length_lt {A : Type} (p : A -> bool) (l : list A) x :
  In x l -> p x = false -> length (filter p l) < length l.
Proof.
  induction l as [|y l IH]; simpl; intros Hin Hp; [destruct Hin|].
  pose proof (filter_length_le p l) as Hle.
  destruct Hin as [->|Hin].
  - rewrite Hp. lia.
  - specialize (IH Hin Hp). destruct (p y); simpl; lia.
Qed.

Lemma accepted_perm l l' :
  Permutation l l' -> Permutation (accepted l) (accepted l').
Proof. unfold accepted. apply Permutation_flat_map. Qed.

Lemma collect_unbounded directory root max_files m skipped :
  target_of max_files = None ->
  collect_md_files directory root max_files = Return (m, skipped) ->
  Permutation m (accepted (node_files directory root)).
Proof.
  intros Ht H. apply collect_visits in H.
  destruct H as (visited & rest & Hp & _ & _ & Hv & Hr).
  rewrite (Hr Ht), app_nil_r in Hv. rewrite Hp. apply accepted_perm. assumption.
Qed.

(** ** Properties of the collector *)

(** C2: with a positive [max_files = N] the collector returns at most [N]
    posts; with [max_files = None] it returns exactly the files of the tree
    whose headers parse; and on a tree without I/O faults it does return. *)
Theorem collect_respects_max_files (directory : Path) (root : fs_node) :
  (forall N m skipped,
      (0 < N)%Z ->
      collect_md_files directory root (Some N) = Return (m, skipped) ->
      (Z.of_nat (length m) <= N)%Z)
  /\ (forall m skipped,
        collect_md_files directory root None = Return (m, skipped) ->
        Permutation m (accepted (node_files directory root)))
  /\ (healthy root ->
      forall max_files, exists m skipped,
        collect_md_files directory root max_files = Return (m, skipped)).
Proof.
  split; [|split].
  - intros N m skipped HN H. apply collect_inv in H.
    destruct H as (md & Hw & _ & ->).
    assert (Ht : target_of (Some N) = Some N).
    { simpl. destruct (Z.eqb_spec N 0); [lia|reflexivity]. }
    rewrite Ht in Hw. apply walk_bound in Hw; [|simpl; lia].
    rewrite (Permutation_length (sort_by_path_perm md)). assumption.
  - intros m skipped H. eapply collect_unbounded; [|exact H]. reflexivity.
  - intros Hh max_files. apply collect_total. assumption.
Qed.

(** C8: the mapping returned by the collector is in strictly ascending
    order of the paths; the order relation looks at nothing else. *)
Theorem collect_ordered_by_path (directory : Path) (root : fs_node)
    (max_files : option Z) m skipped :
  collect_md_files directory root max_files = Return (m, skipped) ->
  StronglySorted path_lt (map fst m).
Proof. intros H. apply collect_sorted in H. apply H. Qed.

(** C9: [max_files = 0] behaves as [max_files = None]: the bound is
    unlimited and every file whose headers parse is returned. *)
Theorem max_files_zero_is_unlimited (directory : Path) (root : fs_node) :
  collect_md_files directory root (Some 0%Z)
    = collect_md_files directory root None
  /\ (forall m skipped,
        collect_md_files directory root (Some 0%Z) = Return (m, skipped) ->
        Permutation m (accepted (node_files directory root))).
Proof.
  split; [reflexivity|].
  intros m skipped H. eapply collect_unbounded; [|exact H]. reflexivity.
Qed.

(** ** Properties of the header parser *)

(** C5, as the code has it: a file is built only when the first line starts
    with the marker, and its title is that line without leading [#] and
    surrounding whitespace (possibly empty); every failure is an
    [InvalidMarkdownFile], and a first line without the marker fails with
    "Missing title header". *)
Theorem title_from_header (s : TextIO) :
  match MarkdownFile_init s with
  | Return f =>
      startswith (first_line s) "# " = true
      /\ title f = strip (lstrip_hash (first_line s))
  | Raise e => exists msg, e = InvalidMarkdownFile msg
  end
  /\ (startswith (first_line s) "# " = false ->
      MarkdownFile_init s = Raise (InvalidMarkdownFile "Missing title header")).
Proof.
  split.
  - destruct (MarkdownFile_init s) as [f|e] eqn:H.
    + apply MarkdownFile_init_Return in H.
      destruct H as (H1 & _ & date & _ & ->). split; [assumption|reflexivity].
    + apply MarkdownFile_init_Raise in H. assumption.
  - unfold MarkdownFile_init, first_line.
    destruct (readline s) as [l1 s1]. destruct (readline s1) as [l2 s2].
    destruct (readline s2) as [l3 s3]. simpl. intros ->. reflexivity.
Qed.

(** C10: when the date header carries its own UTC offset, the publication
    date keeps the written clock reading and carries [TZ_INFO] instead of
    the written offset. *)
Theorem explicit_offset_replaced (s : TextIO) (f : MarkdownFile)
    (date : datetime.t) (offset : Z) :
  MarkdownFile_init s = Return f ->
  fromisoformat (strip (lstrip_hash (third_line s))) = Some date ->
  datetime.tzinfo date = Some offset ->
  datetime.clock (pub_date f) = datetime.clock date
  /\ datetime.tzinfo (pub_date f) = Some TZ_INFO.
Proof.
  intros H Hd _. apply MarkdownFile_init_Return in H.
  destruct H as (_ & _ & date' & Hd' & ->).
  rewrite Hd in Hd'. injection Hd' as <-. split; reflexivity.
Qed.

(** ** Properties of the feed *)

Lemma prefix_append (p rest : string) : String.prefix p (p ++ rest) = true.
Proof.
  induction p as [|c p IH]; simpl; [destruct rest; reflexivity|].
  destruct (ascii_dec c c) as [_|Hc]; [exact IH|congruence].
Qed.

(** C6: when nothing was collected, [main] returns no tree, no included
    file and exactly one message: the text "No markdown files found in",
    the directory, and the remark about the ".md" extension. *)
Theorem empty_collection_no_feed (directory : Path) (root : fs_node)
    (title description url : string) (max_files : option Z)
    (now : datetime.t) (errors : list string) :
  collect_md_files directory root max_files = Return ([], errors) ->
  exists msg,
    main directory root title description url max_files now
      = Return (None, [], [msg])
    /\ msg = ("No markdown files found in " ++ path_str directory
                ++ " (we are dumb and only check for "
                ++ String DQUOTE (".md" ++ String DQUOTE " fileextensions)"))%string
    /\ String.prefix "No markdown files found in " msg = true
    /\ msg <> "".
Proof.
  intros H. eexists. split; [|split; [reflexivity|split]].
  - unfold main. rewrite H. cbn [bind]. unfold no_files_message. reflexivity.
  - apply prefix_append.
  - discriminate.
Qed.

(** C7, evaluated on the code: the root is [rss] with the attributes
    [version] and [xlmns:atom]; it has no attribute named [xmlns:atom]. *)
Theorem rss_root_attributes (title description url : string)
    (pub_date : option string) (now : datetime.t) :
  let root := getroot (RssElementTree_init title description url pub_date now) in
  tag_of root = "rss"
  /\ attrib_of root
     = [("version", "2.0"); ("xlmns:atom", "http://www.w3.org/2005/Atom")]
  /\ attrib_get (attrib_of root) "xmlns:atom" = None.
Proof. repeat split. Qed.

(** ** Trimming and line structure *)

Lemma isspace_LF : isspace LF = true.
Proof. reflexivity. Qed.

Lemma lstrip_by_head p s c : head_char (lstrip_by p s) = Some c -> p c = false.
Proof.
  induction s as [|a s IH]; simpl; [discriminate|].
  destruct (p a) eqn:E; [exact IH|]. simpl. intros [= <-]. exact E.
Qed.

Lemma rstrip_by_head p s c :
  head_char (rstrip_by p s) = Some c -> head_char s = Some c.
Proof.
  destruct s as [|a s]; simpl; [auto|].
  destruct (rstrip_by p s); [destruct (p a)|]; simpl; auto; discriminate.
Qed.

Lemma rstrip_by_last p s c : last_char (rstrip_by p s) = Some c -> p c = false.
Proof.
  induction s as [|a s IH]; simpl; [discriminate|].
  destruct (rstrip_by p s) as [|b r] eqn:E.
  - destruct (p a) eqn:Ep; simpl; [discriminate|]. intros [= <-]. exact Ep.
  - exact IH.
Qed.

Lemma strip_trimmed s : trimmed (strip s).
Proof.
  unfold strip. split; intros c H.
  - apply rstrip_by_head in H. apply lstrip_by_head in H. exact H.
  - apply rstrip_by_last in H. exact H.
Qed.

Lemma lf_only_last_tail c s : lf_only_last (String c s) = true -> lf_only_last s = true.
Proof.
  destruct s as [|b s]; [reflexivity|]. simpl.
  intros H. apply andb_true_iff in H. apply H.
Qed.

Lemma split_line_lf s : lf_only_last (fst (split_line s)) = true.
Proof.
  induction s as [|c s IH]; simpl; [reflexivity|].
  destruct (Ascii.eqb c LF) eqn:E; [reflexivity|].
  destruct (split_line s) as [l r]. simpl in *.
  destruct l as [|b l]; [reflexivity|].
  change (negb (Ascii.eqb c LF) && lf_only_last (String b l) = true).
  rewrite E, IH. reflexivity.
Qed.

Lemma lstrip_by_lf p s : lf_only_last s = true -> lf_only_last (lstrip_by p s) = true.
Proof.
  induction s as [|c s IH]; intros H; [reflexivity|].
  simpl. destruct (p c); [|exact H]. apply IH. eapply lf_only_last_tail. exact H.
Qed.

Lemma rstrip_no_lf s :
  lf_only_last s = true -> contains LF (rstrip_by isspace s) = false.
Proof.
  induction s as [|c s IH]; intros H; [reflexivity|].
  pose proof (lf_only_last_tail _ _ H) as Ht. specialize (IH Ht).
  assert (Hc : s <> EmptyString -> Ascii.eqb c LF = false).
  { destruct s as [|b s]; [congruence|]. intros _.
    change (negb (Ascii.eqb c LF) && lf_only_last (String b s) = true) in H.
    apply andb_true_iff in H. destruct H as [H _].
    apply negb_true_iff in H. exact H. }
  change (contains LF
            (match rstrip_by isspace s with
             | EmptyString => if isspace c then EmptyString else String c EmptyString
             | String b r => String c (String b r)
             end) = false).
  destruct (rstrip_by isspace s) as [|b r] eqn:E.
  - destruct (isspace c) eqn:Es; [reflexivity|].
    change (Ascii.eqb c LF || false = false).
    destruct (Ascii.eqb_spec c LF) as [->|]; [|reflexivity].
    rewrite isspace_LF in Es. discriminate.
  - change (Ascii.eqb c LF || contains LF (String b r) = false).
    rewrite IH, Hc; [reflexivity|]. intros ->. discriminate.
Qed.

Lemma strip_line_no_lf p s :
  contains LF (strip (lstrip_by p (fst (split_line s)))) = false.
Proof.
  unfold strip. apply rstrip_no_lf. apply lstrip_by_lf. apply lstrip_by_lf.
  apply split_line_lf.
Qed.

Lemma readline_fst st : fst (readline st) = fst (split_line (unread st)).
Proof. unfold readline. destruct (split_line (unread st)). reflexivity. Qed.

(** X1: the title of every file that is built is a single trimmed line: it
    neither starts nor ends with whitespace and holds no line feed. *)
Theorem title_is_trimmed_line (s : TextIO) (f : MarkdownFile) :
  MarkdownFile_init s = Return f ->
  trimmed (title f) /\ contains LF (title f) = false.
Proof.
  intros H. apply MarkdownFile_init_Return in H.
  destruct H as (_ & _ & date & _ & ->). simpl. split.
  - apply strip_trimmed.
  - unfold first_line, lstrip_hash. rewrite readline_fst. apply strip_line_no_lf.
Qed.

(** X2: once the title header is present, a third line without the marker
    fails with "Missing date header", and a third line with the marker whose
    text [fromisoformat] rejects fails with "Date header is not a valid ISO
    date"; the second line is never looked at. *)
Theorem date_header_errors (s : TextIO) :
  startswith (first_line s) "# " = true ->
  (startswith (third_line s) "## " = false ->
   MarkdownFile_init s = Raise (InvalidMarkdownFile "Missing date header"))
  /\ (startswith (third_line s) "## " = true ->
      fromisoformat (strip (lstrip_hash (third_line s))) = None ->
      MarkdownFile_init s
        = Raise (InvalidMarkdownFile "Date header is not a valid ISO date")).
Proof.
  unfold MarkdownFile_init, first_line, third_line.
  destruct (readline s) as [l1 s1]. simpl.
  destruct (readline s1) as [l2 s2]. simpl.
  destruct (readline s2) as [l3 s3]. simpl.
  intros ->. simpl. split.
  - intros ->. reflexivity.
  - intros -> ->. reflexivity.
Qed.

(** X3: wrapping a stream does not consume it. Wherever the stream stood,
    the file keeps it rewound to the start, so [content] hands the renderer
    the complete text, header lines included, and turns a renderer failure
    into [InvalidMarkdownFile] with the renderer's diagnostic. *)
Theorem content_renders_whole_text (s : TextIO) (f : MarkdownFile) :
  MarkdownFile_init s = Return f ->
  stream f = open_text (whole s)
  /\ MarkdownFile_content f
     = match markdown (whole s) with
       | inl html => Return html
       | inr stderr =>
           Raise (InvalidMarkdownFile
                    ("Could not convert to Markdown " ++ stderr)%string)
       end.
Proof.
  intros H. apply MarkdownFile_init_Return in H.
  destruct H as (_ & _ & date & _ & ->).
  unfold MarkdownFile_content, seek0, open_text. simpl.
  rewrite !readline_whole. split; reflexivity.
Qed.

(** ** Parsing a post that has the expected layout *)

Lemma split_line_app t rest :
  contains LF t = false ->
  split_line (t ++ String LF rest) = ((t ++ newline)%string, rest).
Proof.
  induction t as [|c t IH]; simpl; intros H; [reflexivity|].
  apply orb_false_iff in H. destruct H as [Hc Ht].
  rewrite Hc, (IH Ht). reflexivity.
Qed.

Lemma rstrip_by_snoc p s c :
  p c = true -> rstrip_by p (s ++ String c EmptyString) = rstrip_by p s.
Proof.
  intros Hc. induction s as [|a s IH]; simpl.
  - rewrite Hc. reflexivity.
  - rewrite IH. reflexivity.
Qed.

Lemma strip_snoc s c :
  isspace c = true -> strip (s ++ String c EmptyString) = strip s.
Proof.
  intros Hc. unfold strip. induction s as [|a s IH].
  - simpl. rewrite Hc. reflexivity.
  - change (rstrip_by isspace
              (if isspace a then lstrip_by isspace (s ++ String c EmptyString)
               else String a (s ++ String c EmptyString))
            = rstrip_by isspace
                (if isspace a then lstrip_by isspace s else String a s)).
    destruct (isspace a); [exact IH|].
    apply (rstrip_by_snoc isspace (String a s) c Hc).
Qed.

Lemma strip_header_line t :
  strip (String " " (t ++ newline)) = strip t.
Proof.
  unfold newline. rewrite <- (strip_snoc t LF isspace_LF). reflexivity.
Qed.

Lemma split_title_line t d body :
  contains LF t = false ->
  split_line (post_text t d body)
  = (("# " ++ t ++ newline)%string,
     (newline ++ "## " ++ d ++ newline ++ body)%string).
Proof.
  intros H. unfold post_text. simpl. rewrite (split_line_app _ _ H). reflexivity.
Qed.

Lemma split_blank_line rest :
  split_line (newline ++ rest)%string = (newline, rest).
Proof. reflexivity. Qed.

Lemma split_date_line d body :
  contains LF d = false ->
  split_line ("## " ++ d ++ newline ++ body)%string
  = (("## " ++ d ++ newline)%string, body).
Proof.
  intros H. simpl. rewrite (split_line_app _ _ H). reflexivity.
Qed.

Lemma startswith_marker1 x : startswith ("# " ++ x)%string "# " = true.
Proof. destruct x; reflexivity. Qed.

Lemma startswith_marker2 x : startswith ("## " ++ x)%string "## " = true.
Proof. destruct x; reflexivity. Qed.

Lemma lstrip_hash_marker1 x : lstrip_hash ("# " ++ x)%string = String " " x.
Proof. reflexivity. Qed.

Lemma lstrip_hash_marker2 x : lstrip_hash ("## " ++ x)%string = String " " x.
Proof. reflexivity. Qed.

(** X4: a text laid out as title header, blank line, date header and body
    parses to the title and the date that were written, trimmed: the file
    keeps the whole text, its title is the stripped title, and its date is
    what [fromisoformat] makes of the stripped date text, carrying
    [TZ_INFO]; if [fromisoformat] rejects that text the date is reported as
    invalid. *)
Theorem parse_post_text (title0 date0 body : string) :
  contains LF title0 = false ->
  contains LF date0 = false ->
  MarkdownFile_init (open_text (post_text title0 date0 body))
  = match fromisoformat (strip date0) with
    | Some date =>
        Return (mkMarkdownFile
                  (open_text (post_text title0 date0 body))
                  (strip title0)
                  (datetime.combine (datetime.date_of date)
                                    (datetime.time_of date) TZ_INFO))
    | None => Raise (InvalidMarkdownFile "Date header is not a valid ISO date")
    end.
Proof.
  intros Ht Hd. unfold MarkdownFile_init, readline, open_text.
  cbn [unread whole].
  rewrite (split_title_line title0 date0 body Ht). cbn [unread whole].
  rewrite split_blank_line. cbn [unread whole].
  rewrite (split_date_line date0 body Hd). cbn [seek0 whole].
  rewrite !startswith_marker1, !startswith_marker2. cbn [negb].
  rewrite lstrip_hash_marker1, lstrip_hash_marker2, !strip_header_line.
  reflexivity.
Qed.

(** ** The walk, once more: what a bound leaves out *)

Lemma walk_cons target current node stack md_files skipped :
  walk target ((current, node) :: stack) md_files skipped
  = if below md_files target then
      match expand target current node stack md_files skipped with
      | Return (stack', md_files', skipped') =>
          walk target stack' md_files' skipped'
      | Raise e => Raise e
      end
    else Return (md_files, skipped).
Proof.
  funelim (walk target ((current, node) :: stack) md_files skipped); tidy_walk.
  - rewrite Heq. reflexivity.
  - rewrite Heq, Hexp. reflexivity.
  - rewrite Heq. match goal with H : expand _ _ _ _ _ _ = Raise _ |- _ => rewrite H end.
    reflexivity.
Qed.

Lemma scan_entries_unreached target current entries :
  forall stack md_files skipped stack' md_files' skipped',
    scan_entries target current entries stack md_files skipped
      = Return (stack', md_files', skipped') ->
    reached md_files' target = false ->
    scan_entries None current entries stack md_files skipped
      = Return (stack', md_files', skipped').
Proof.
  induction entries as [|[name node] more IH];
    intros stack md sk stack' md' sk' H Hr; simpl in *; [exact H|].
  destruct (is_dir node); [eauto|].
  destruct (load node) as [f|[e|e|e]]; try discriminate.
  - destruct (reached (md ++ [(joinpath current name, f)]) target) eqn:E; [|eauto].
    injection H as _ <- _. congruence.
  - destruct (reached md target) eqn:E; [|eauto].
    injection H as _ <- _. congruence.
Qed.

Lemma below_prefix {A : Type} (l1 l2 : list A) target :
  below (l1 ++ l2) target = true -> reached l1 target = false.
Proof.
  unfold below, reached. destruct target as [t|]; [|reflexivity].
  rewrite length_app. intros H. apply Z.ltb_lt in H. apply Z.leb_gt. lia.
Qed.

(** A walk that ends below its target did what the unbounded walk does. *)
Lemma walk_unreached target stack md_files skipped :
  forall md_files' skipped',
    walk target stack md_files skipped = Return (md_files', skipped') ->
    below md_files' target = true ->
    walk None stack md_files skipped = Return (md_files', skipped').
Proof.
  funelim (walk target stack md_files skipped); intros md1 sk1 Hw Hb; tidy_walk.
  - injection Hw as <- <-. simp walk. reflexivity.
  - injection Hw as <- <-. congruence.
  - rewrite walk_cons. simpl.
    pose proof Hw as Hv. apply walk_visits in Hv.
    destruct Hv as (v & r & -> & _ & _ & _ & _).
    apply expand_Return in Hexp. destruct Hexp as (entries & -> & Hscan).
    apply scan_entries_unreached in Hscan; [|eapply below_prefix; exact Hb].
    unfold expand. simpl. rewrite Hscan. auto.
  - discriminate.
Qed.

Lemma visited_split visited :
  Forall is_file visited ->
  length (accepted visited) + length (rejected visited) = length visited.
Proof.
  induction 1 as [|[p n] visited [text Ht] _ IH]; [reflexivity|].
  simpl in Ht. subst n.
  change (accepted ((p, File text) :: visited))
    with (match load (File text) with
          | Return f => [(p, f)]
          | Raise _ => []
          end ++ accepted visited).
  change (rejected ((p, File text) :: visited))
    with (match load (File text) with
          | Raise (InvalidMarkdownFile e) =>
              [("Skipped " ++ path_str p ++ ": " ++ e)%string]
          | _ => []
          end ++ rejected visited).
  rewrite !length_app.
  pose proof (load_cases (File text) eq_refl) as Hl.
  destruct (load (File text)) as [f|[e|e|e]]; cbn [length];
    [lia | lia | destruct Hl as [err Hl]; discriminate | contradiction].
Qed.

Lemma sorted_by_key_unique {V : Type} (l1 : list (Path * V)) :
  forall l2,
    StronglySorted path_lt (map fst l1) ->
    StronglySorted path_lt (map fst l2) ->
    Permutation l1 l2 ->
    l1 = l2.
Proof.
  induction l1 as [|x l1 IH]; intros l2 H1 H2 Hp.
  - apply Permutation_nil in Hp. congruence.
  - destruct l2 as [|y l2]; [symmetry in Hp; apply Permutation_nil in Hp; discriminate|].
    simpl in H1, H2.
    inversion H1 as [|? ? Hs1 Hall1]; inversion H2 as [|? ? Hs2 Hall2]; subst.
    assert (Hxy : x = y).
    { assert (Hx : In x (y :: l2)) by (eapply Permutation_in; [exact Hp|left; reflexivity]).
      assert (Hy : In y (x :: l1))
        by (eapply Permutation_in; [symmetry; exact Hp|left; reflexivity]).
      destruct Hx as [<-|Hx]; [reflexivity|].
      destruct Hy as [<-|Hy]; [reflexivity|].
      exfalso. rewrite Forall_forall in Hall1, Hall2.
      apply (@path_lt_irrefl (fst x)).
      apply (@path_lt_trans (fst x) (fst y) (fst x)).
      - apply Hall1. apply in_map. assumption.
      - apply Hall2. apply in_map. assumption. }
    subst y. f_equal. apply IH; auto.
    eapply Permutation_cons_inv. exact Hp.
Qed.

Lemma rejected_perm l l' :
  Permutation l l' -> Permutation (rejected l) (rejected l').
Proof. unfold rejected. apply Permutation_flat_map. Qed.

Lemma in_rejected files msg :
  In msg (rejected files) <->
  exists path node e,
    In (path, node) files
    /\ load node = Raise (InvalidMarkdownFile e)
    /\ msg = ("Skipped " ++ path_str path ++ ": " ++ e)%string.
Proof.
  unfold rejected. rewrite in_flat_map. split.
  - intros ([p n] & Hin & Hm). simpl in Hm.
    destruct (load n) as [f|[e|e|e]] eqn:Hl; try destruct Hm as [<-|[]]; try destruct Hm.
    exists p, n, e. auto.
  - intros (path & node & e & Hin & Hl & ->). exists (path, node). simpl.
    rewrite Hl. split; [assumption|left; reflexivity].
Qed.

(** X5: with a positive [max_files = N] the collector returns exactly
    [min(N, e)] posts, where [e] is the number of files of the tree whose
    headers parse: it stops short of [N] only when the tree has no more, and
    files that fail to parse use up none of the [N]. *)
Theorem collect_returns_min (directory : Path) (root : fs_node)
    (N : Z) m skipped :
  (0 < N)%Z ->
  collect_md_files directory root (Some N) = Return (m, skipped) ->
  Z.of_nat (length m)
  = Z.min N (Z.of_nat (length (accepted (node_files directory root)))).
Proof.
  intros HN H. apply collect_inv in H. destruct H as (md & Hw & _ & ->).
  rewrite (Permutation_length (sort_by_path_perm md)).
  assert (Ht : target_of (Some N) = Some N).
  { simpl. destruct (Z.eqb_spec N 0); [lia|reflexivity]. }
  rewrite Ht in Hw.
  pose proof Hw as Hle. apply walk_bound in Hle; [|simpl; lia].
  pose proof Hw as Hv. apply walk_visits in Hv.
  destruct Hv as (v & r & Hmd & _ & _ & Hp & _).
  simpl in Hmd, Hp. rewrite app_nil_r in Hp. subst md.
  assert (Hsub : length (accepted v)
                 <= length (accepted (node_files directory root))).
  { rewrite <- (Permutation_length (accepted_perm Hp)), accepted_app, length_app.
    lia. }
  destruct (Z.ltb_spec (Z.of_nat (length (accepted v))) N) as [Hlt|Hge]; [|lia].
  assert (Hb : below (accepted v) (Some N) = true) by (apply Z.ltb_lt; exact Hlt).
  pose proof Hw as Hw'. apply walk_unreached in Hw'; [|exact Hb].
  apply walk_visits in Hw'.
  destruct Hw' as (v' & r' & Hmd' & _ & _ & Hp' & Hr').
  simpl in Hmd', Hp'. rewrite (Hr' eq_refl), !app_nil_r in Hp'.
  rewrite Hmd' in Hlt |- *.
  rewrite (Permutation_length (accepted_perm Hp')) in Hlt |- *. lia.
Qed.

(** X6: whatever the bound, the collector invents nothing: every returned
    post is a file of the tree, under its own path, whose headers parse to
    that post; every skip message names a file of the tree whose headers
    fail to parse, with the parser's reason; and posts and skip messages
    together are no more than the files of the tree. *)
Theorem collect_sound (directory : Path) (root : fs_node)
    (max_files : option Z) m skipped :
  collect_md_files directory root max_files = Return (m, skipped) ->
  (forall path f,
      In (path, f) m ->
      exists text,
        In (path, File text) (node_files directory root)
        /\ MarkdownFile_init (open_text text) = Return f)
  /\ (forall msg,
        In msg skipped ->
        exists path text e,
          In (path, File text) (node_files directory root)
          /\ MarkdownFile_init (open_text text) = Raise (InvalidMarkdownFile e)
          /\ msg = ("Skipped " ++ path_str path ++ ": " ++ e)%string)
  /\ length m + length skipped <= length (node_files directory root).
Proof.
  intros H. apply collect_visits in H.
  destruct H as (visited & rest & Hm & -> & Hf & Hp & _).
  assert (Hin : forall pn, In pn visited -> In pn (node_files directory root)).
  { intros pn Hpn. eapply Permutation_in; [exact Hp|].
    apply in_or_app. left. exact Hpn. }
  rewrite Forall_forall in Hf. split; [|split].
  - intros path f Hpf. apply (Permutation_in _ Hm) in Hpf.
    apply in_accepted in Hpf. destruct Hpf as (node & Hn & Hl).
    destruct (Hf _ Hn) as [text Ht]. simpl in Ht. subst node.
    exists text. split; [apply Hin; exact Hn|exact Hl].
  - intros msg Hmsg. apply in_rejected in Hmsg.
    destruct Hmsg as (path & node & e & Hn & Hl & ->).
    destruct (Hf _ Hn) as [text Ht]. simpl in Ht. subst node.
    exists path, text, e. split; [apply Hin; exact Hn|]. split; [exact Hl|reflexivity].
  - rewrite (Permutation_length Hm), <- (Permutation_length Hp), length_app.
    assert (Hs : length (accepted visited) + length (rejected visited)
                 = length visited)
      by (apply visited_split; apply Forall_forall; exact Hf).
    lia.
Qed.

(** X7: without a bound the returned mapping does not depend on the order
    in which [os.scandir] lists entries: two trees that hold the same files
    under the same paths give the same mapping, entry for entry; only the
    order of the skip messages can differ. *)
Theorem collect_independent_of_listing_order (directory : Path)
    (root1 root2 : fs_node) m1 skipped1 m2 skipped2 :
  Permutation (node_files directory root1) (node_files directory root2) ->
  collect_md_files directory root1 None = Return (m1, skipped1) ->
  collect_md_files directory root2 None = Return (m2, skipped2) ->
  m1 = m2 /\ Permutation skipped1 skipped2.
Proof.
  intros Hp H1 H2. split.
  - pose proof H1 as Hs1. apply collect_sorted in Hs1.
    pose proof H2 as Hs2. apply collect_sorted in Hs2.
    pose proof H1 as Hu1. apply collect_unbounded in Hu1; [|reflexivity].
    pose proof H2 as Hu2. apply collect_unbounded in Hu2; [|reflexivity].
    apply sorted_by_key_unique; [apply Hs1|apply Hs2|].
    rewrite Hu1, Hu2. apply accepted_perm. exact Hp.
  - apply collect_visits in H1, H2.
    destruct H1 as (v1 & r1 & _ & -> & _ & Hp1 & Hr1).
    destruct H2 as (v2 & r2 & _ & -> & _ & Hp2 & Hr2).
    rewrite (Hr1 eq_refl), app_nil_r in Hp1.
    rewrite (Hr2 eq_refl), app_nil_r in Hp2.
    apply rejected_perm. rewrite Hp1, Hp2. exact Hp.
Qed.

(** ** The feed that [main] builds *)

Lemma children_of_append e child :
  children_of (append e child) = children_of e ++ [child].
Proof. destruct e. reflexivity. Qed.

Lemma tag_of_append e child : tag_of (append e child) = tag_of e.
Proof. destruct e. reflexivity. Qed.

(** The item loop only ever adds [<item>] children at the end of the
    channel. *)
Lemma add_items_channel md_files :
  forall rss_tree included errors,
  exists rss_tree',
    add_items md_files rss_tree included errors
      = Return (rss_tree',
                included ++ map fst (filter (fun pf => renders (snd pf)) md_files),
                errors ++ flat_map render_error md_files)
    /\ root_tag rss_tree' = root_tag rss_tree
    /\ root_attrib rss_tree' = root_attrib rss_tree
    /\ tag_of (channel rss_tree') = tag_of (channel rss_tree)
    /\ children_of (channel rss_tree')
       = children_of (channel rss_tree) ++ rendered_items md_files.
Proof.
  induction md_files as [|[path f] more IH]; intros tree inc errs.
  - exists tree. simpl. rewrite !app_nil_r. repeat split; reflexivity.
  - change (rendered_items ((path, f) :: more))
      with (match markdown (unread (stream f)) with
            | inl html => [item_element f html]
            | inr _ => []
            end ++ rendered_items more).
    unfold renders, render_error.
    cbn [add_items filter flat_map map fst snd].
    unfold append_item, MarkdownFile_content. cbn [read fst].
    destruct (markdown (unread (stream f))) as [html|stderr]; cbn [bind].
    + match goal with
      | |- exists t, add_items more ?tree1 ?inc1 ?errs1 = _ /\ _ =>
          destruct (IH tree1 inc1 errs1) as (tree' & Ht & H1 & H2 & H3 & H4)
      end.
      exists tree'. cbn [root_tag root_attrib channel] in H1, H2, H3, H4.
      rewrite tag_of_append in H3. rewrite children_of_append in H4.
      rewrite <- app_assoc in Ht, H4.
      split; [exact Ht|]. repeat split; assumption.
    + match goal with
      | |- exists t, add_items more ?tree1 ?inc1 ?errs1 = _ /\ _ =>
          destruct (IH tree1 inc1 errs1) as (tree' & Ht & H1 & H2 & H3 & H4)
      end.
      exists tree'. rewrite <- app_assoc in Ht.
      split; [exact Ht|]. repeat split; assumption.
Qed.

Lemma filter_rendered_items md_files :
  filter (fun e => String.eqb (tag_of e) "item") (rendered_items md_files)
  = rendered_items md_files.
Proof.
  unfold rendered_items. induction md_files as [|[path f] more IH]; [reflexivity|].
  cbn [flat_map snd]. rewrite filter_app, IH.
  destruct (markdown (unread (stream f))); reflexivity.
Qed.

Lemma sorted_keys_filter {V : Type} (p : Path * V -> bool) (l : list (Path * V)) :
  StronglySorted path_lt (map fst l) ->
  StronglySorted path_lt (map fst (filter p l)).
Proof.
  induction l as [|x l IH]; simpl; intros H; [constructor|].
  inversion H as [|? ? Hs Hall]; subst.
  destruct (p x); simpl; [|auto].
  constructor; [auto|].
  rewrite Forall_forall in *. intros q Hq. apply Hall.
  apply in_map_iff in Hq. destruct Hq as (y & <- & Hy).
  apply filter_In in Hy. apply in_map. apply Hy.
Qed.

Lemma main_inv directory root title0 description url max_files now
      md_files errors rss_tree included errors' :
  collect_md_files directory root max_files = Return (md_files, errors) ->
  main directory root title0 description url max_files now
    = Return (Some rss_tree, included, errors') ->
  add_items md_files (RssElementTree_init title0 description url None now) [] errors
    = Return (rss_tree, included, errors').
Proof.
  intros Hc Hm. unfold main in Hm. rewrite Hc in Hm. cbn [bind] in Hm.
  destruct md_files as [|x more]; [discriminate|].
  destruct (add_items (x :: more) _ [] errors) as [[[t i] e]|e]; [|discriminate].
  cbn [bind] in Hm. congruence.
Qed.

(** X8: in the feed that [main] returns, the channel still starts with its
    metadata elements and the [<item>] elements follow, one for each
    collected file that renders, in the order of the mapping; the included
    files are the paths of exactly those files, in ascending path order, so
    the n-th item carries the title of the n-th included file. *)
Theorem main_items_follow_mapping (directory : Path) (root : fs_node)
    (title0 description url : string) (max_files : option Z) (now : datetime.t)
    md_files errors rss_tree included errors' :
  collect_md_files directory root max_files = Return (md_files, errors) ->
  main directory root title0 description url max_files now
    = Return (Some rss_tree, included, errors') ->
  children_of (channel rss_tree)
    = children_of (channel (RssElementTree_init title0 description url None now))
      ++ rendered_items md_files
  /\ items rss_tree = rendered_items md_files
  /\ included = map fst (filter (fun pf => renders (snd pf)) md_files)
  /\ map item_title (items rss_tree)
     = map (fun pf => Some (title (snd pf)))
           (filter (fun pf => renders (snd pf)) md_files)
  /\ StronglySorted path_lt included.
Proof.
  intros Hc Hm. pose proof (@main_inv directory root title0 description url max_files now
                md_files errors rss_tree included errors' Hc Hm) as Ha.
  destruct (add_items_channel md_files
              (RssElementTree_init title0 description url None now) [] errors)
    as (tree' & Ht & _ & _ & _ & Hch).
  rewrite Ha in Ht. injection Ht as <- -> ->.
  assert (Hitems : items rss_tree = rendered_items md_files).
  { unfold items. rewrite Hch, filter_app, filter_rendered_items. reflexivity. }
  split; [exact Hch|]. split; [exact Hitems|]. split; [reflexivity|]. split.
  - rewrite Hitems. unfold rendered_items, renders.
    clear. induction md_files as [|[path f] more IH]; [reflexivity|].
    cbn [flat_map filter snd]. rewrite map_app, IH.
    destruct (markdown (unread (stream f))); reflexivity.
  - simpl. apply sorted_keys_filter. apply collect_sorted in Hc. apply Hc.
Qed.

(** X9: when the mapping is not empty, the messages that [main] returns are
    the collector's skip messages, unchanged and in their order, followed by
    one "Could not convert to Markdown" message for each collected file on
    which the renderer fails, in the order of the mapping. *)
Theorem main_error_log (directory : Path) (root : fs_node)
    (title0 description url : string) (max_files : option Z) (now : datetime.t)
    md_files errors rss_tree included errors' :
  collect_md_files directory root max_files = Return (md_files, errors) ->
  main directory root title0 description url max_files now
    = Return (Some rss_tree, included, errors') ->
  errors' = errors ++ flat_map render_error md_files
  /\ length included + length (flat_map render_error md_files) = length md_files.
Proof.
  intros Hc Hm. pose proof (@main_inv directory root title0 description url max_files now
                md_files errors rss_tree included errors' Hc Hm) as Ha.
  destruct (add_items_closed md_files
              (RssElementTree_init title0 description url None now) [] errors)
    as (tree' & Ht).
  rewrite Ha in Ht. injection Ht as _ -> ->. split; [reflexivity|].
  simpl. rewrite length_map. unfold renders, render_error. clear.
  induction md_files as [|[path f] more IH]; [reflexivity|].
  cbn [filter flat_map snd fst]. rewrite length_app.
  destruct (markdown (unread (stream f))); cbn [length]; lia.
Qed.

Lemma collect_raises directory root max_files e :
  collect_md_files directory root max_files = Raise e ->
  (exists msg, e = OSError msg) \/ (exists msg, e = TypeError msg).
Proof.
  unfold collect_md_files.
  destruct (walk _ _ _ _) as [[md sk]|e'] eqn:Hw; cbn [bind].
  - unfold list_sort. destruct (has_duplicate (map fst md)); cbn [bind];
      [|discriminate].
    intros [= <-]. right. eauto.
  - intros [= <-]. left. eapply walk_raises. exact Hw.
Qed.

(** ** Bounded and unbounded runs *)

(** X11: a bound only leaves posts out. Every post and every skip message
    that a bounded run returns is also returned, under the same path and
    with the same contents, by the unbounded run on the same tree. *)
Theorem bounded_within_unbounded (directory : Path) (root : fs_node)
    (max_files : option Z) m skipped m_all skipped_all :
  collect_md_files directory root max_files = Return (m, skipped) ->
  collect_md_files directory root None = Return (m_all, skipped_all) ->
  incl m m_all /\ incl skipped skipped_all.
Proof.
  intros Hb Hu.
  apply collect_visits in Hb. destruct Hb as (v & r & Hm & -> & _ & Hp & _).
  apply collect_visits in Hu. destruct Hu as (v' & r' & Hm' & -> & _ & Hp' & Hr').
  rewrite (Hr' eq_refl), app_nil_r in Hp'.
  assert (Hin : forall pn, In pn v -> In pn v').
  { intros pn Hpn. eapply Permutation_in; [symmetry; exact Hp'|].
    eapply Permutation_in; [exact Hp|]. apply in_or_app. left. exact Hpn. }
  split.
  - intros [path f] Hpf. eapply Permutation_in; [symmetry; exact Hm'|].
    apply (Permutation_in _ Hm) in Hpf. apply in_accepted in Hpf.
    destruct Hpf as (node & Hn & Hl). apply in_accepted. eauto.
  - intros msg Hmsg. apply in_rejected in Hmsg.
    destruct Hmsg as (path & node & e & Hn & Hl & ->).
    apply in_rejected. exists path, node, e. auto.
Qed.

(** X12: an unbounded run that returns has opened every file of the tree
    and accounts for each of them once: the number of posts plus the number
    of skip messages is the number of files, and no file of the tree is one
    that cannot be opened. *)
Theorem unbounded_accounts_for_every_file (directory : Path) (root : fs_node)
    m skipped :
  collect_md_files directory root None = Return (m, skipped) ->
  length m + length skipped = length (node_files directory root)
  /\ Forall is_file (node_files directory root).
Proof.
  intros H. apply collect_visits in H.
  destruct H as (v & r & Hm & -> & Hf & Hp & Hr).
  rewrite (Hr eq_refl), app_nil_r in Hp. split.
  - rewrite (Permutation_length Hm), <- (Permutation_length Hp).
    apply visited_split. exact Hf.
  - eapply Permutation_Forall; [exact Hp|exact Hf].
Qed.

Lemma entries_files_cons path name node more :
  entries_files path (DirEntry name node :: more)
  = node_files (joinpath path name) node ++ entries_files path more.
Proof. reflexivity. Qed.

Lemma scan_entries_prefix N current files rest stack skipped :
  forall md_files,
    Forall parses files ->
    files <> [] ->
    Z.of_nat (length md_files + length files) = N ->
    scan_entries (Some N) current (files ++ rest) stack md_files skipped
    = Return (stack, md_files ++ accepted (entries_files current files), skipped).
Proof.
  induction files as [|[name node] more IH]; intros md Hall Hne Hlen; [congruence|].
  apply Forall_cons_iff in Hall. destruct Hall as [(text & f & Hnode & Hf) Hall'].
  simpl in Hnode. subst node.
  rewrite entries_files_cons, accepted_app.
  change (accepted (node_files (joinpath current name) (File text)))
    with (match load (File text) with
          | Return f0 => [(joinpath current name, f0)]
          | Raise _ => []
          end ++ []).
  cbn [app scan_entries is_dir].
  assert (Hl : load (File text) = Return f) by exact Hf.
  rewrite Hl. rewrite app_nil_r.
  destruct more as [|e more'].
  - assert (Hr : reached (md ++ [(joinpath current name, f)]) (Some N) = true).
    { unfold reached. apply Z.leb_le. rewrite length_app. simpl in *. lia. }
    rewrite Hr. unfold entries_files, accepted. simpl.
    rewrite ?app_nil_r. reflexivity.
  - assert (Hr : reached (md ++ [(joinpath current name, f)]) (Some N) = false).
    { unfold reached. apply Z.leb_gt. rewrite length_app. simpl in *. lia. }
    rewrite Hr. rewrite IH; [|assumption|discriminate|].
    + rewrite <- app_assoc. reflexivity.
    + rewrite length_app. simpl in *. lia.
Qed.

(** X13: the bound is applied in listing order, not in date order. When the
    walked directory lists [N] files whose headers parse before anything
    else, a run with [max_files = N] returns exactly those [N] files and
    never looks at the entries listed after them, whatever they are. *)
Theorem collect_takes_first_listed (directory : Path)
    (files rest : list dir_entry) :
  Forall parses files ->
  files <> [] ->
  distinct (map entry_name files) = true ->
  exists m,
    collect_md_files directory (Directory (files ++ rest))
      (Some (Z.of_nat (length files)))
      = Return (m, [])
    /\ Permutation m (accepted (entries_files directory files)).
Proof.
  intros Hall Hne Hd.
  assert (Hpos : (0 < Z.of_nat (length files))%Z)
    by (destruct files; [congruence|simpl; lia]).
  assert (Hnd : NoDup (map fst (accepted (entries_files directory files)))).
  { apply accepted_nodup. rewrite <- node_files_Directory.
    apply node_files_nodup. apply names_unique_Directory. split; [exact Hd|].
    intros e He. rewrite Forall_forall in Hall.
    destruct (Hall e He) as (text & f & -> & _). reflexivity. }
  exists (sort_by_path (accepted (entries_files directory files))).
  split; [|apply sort_by_path_perm].
  unfold collect_md_files.
  assert (Ht : target_of (Some (Z.of_nat (length files)))
               = Some (Z.of_nat (length files))).
  { simpl. destruct (Z.eqb_spec (Z.of_nat (length files)) 0); [lia|reflexivity]. }
  rewrite Ht. cbv zeta. rewrite walk_cons.
  assert (Hb : below (@nil (Path * MarkdownFile)) (Some (Z.of_nat (length files)))
               = true) by (apply Z.ltb_lt; simpl; lia).
  rewrite Hb. unfold expand. cbn [scandir bind].
  rewrite (@scan_entries_prefix (Z.of_nat (length files)) directory files rest
             [] [] [] Hall Hne eq_refl).
  cbn [app]. simp walk. cbn [bind]. unfold list_sort.
  apply has_duplicate_false in Hnd. rewrite Hnd. cbn [bind].
  rewrite dict_of_nodup; [reflexivity|].
  eapply Permutation_NoDup;
    [apply Permutation_map; symmetry; apply sort_by_path_perm|].
  apply has_duplicate_false. exact Hnd.
Qed.

(** ** The order of the walk *)

Lemma visit_order_Directory path entries :
  visit_order path (Directory entries)
  = direct_files path entries ++ subdirs_order path entries.
Proof.
  simpl. f_equal.
  induction entries as [|[name node] more IH]; simpl; congruence.
Qed.

Lemma stack_order_cons path node stack :
  stack_order ((path, node) :: stack) = visit_order path node ++ stack_order stack.
Proof. reflexivity. Qed.

Lemma reached_below {A : Type} (l : list A) target :
  reached l target = negb (below l target).
Proof.
  unfold reached, below. destruct target as [t|]; [|reflexivity].
  destruct (Z.leb_spec t (Z.of_nat (length l))), (Z.ltb_spec (Z.of_nat (length l)) t);
    simpl; auto; lia.
Qed.

Lemma walk_reached target stack md_files skipped :
  reached md_files target = true ->
  walk target stack md_files skipped = Return (md_files, skipped).
Proof.
  intros Hr. rewrite reached_below in Hr. apply negb_true_iff in Hr.
  destruct stack as [|[current node] stack]; [simp walk; reflexivity|].
  rewrite walk_cons, Hr. reflexivity.
Qed.

Lemma accepted_nil : accepted [] = [].
Proof. reflexivity. Qed.

Lemma rejected_nil : rejected [] = [].
Proof. reflexivity. Qed.

Lemma tried_below_target_nil target md_files : tried_below_target target md_files [].
Proof. intros before x after H. destruct before; discriminate. Qed.

Lemma tried_below_target_cons target md_files pn visited :
  below md_files target = true ->
  tried_below_target target (md_files ++ accepted [pn]) visited ->
  tried_below_target target md_files (pn :: visited).
Proof.
  intros Hb Hv before x after H. destruct before as [|y before].
  - rewrite accepted_nil, app_nil_r. exact Hb.
  - injection H as <- H.
    change (accepted (pn :: before)) with (accepted ([pn] ++ before)).
    rewrite accepted_app, app_assoc. eapply Hv. exact H.
Qed.

Lemma tried_below_target_app target md_files v1 v2 :
  tried_below_target target md_files v1 ->
  tried_below_target target (md_files ++ accepted v1) v2 ->
  tried_below_target target md_files (v1 ++ v2).
Proof.
  intros H1 H2 before x after H.
  apply app_eq_app in H. destruct H as [l [[Hv1 Hl]|[Hb Hv2]]].
  - destruct l as [|y l].
    + rewrite app_nil_r in Hv1. simpl in Hl. subst before.
      specialize (H2 [] x after (eq_sym Hl)).
      rewrite accepted_nil, app_nil_r in H2. exact H2.
    + injection Hl as <- ->. eapply H1. exact Hv1.
  - subst before. rewrite accepted_app, app_assoc. eapply H2. exact Hv2.
Qed.

(** One scan tries the files of the listing in order, as long as the target
    is not reached, and pushes the subdirectories; if it ends before the
    listing does, the target is reached. *)
Lemma scan_entries_order target current entries :
  forall stack md_files skipped stack' md_files' skipped',
    scan_entries target current entries stack md_files skipped
      = Return (stack', md_files', skipped') ->
    below md_files target = true ->
    exists visited rest,
      direct_files current entries = visited ++ rest
      /\ md_files' = md_files ++ accepted visited
      /\ skipped' = skipped ++ rejected visited
      /\ Forall is_file visited
      /\ tried_below_target target md_files visited
      /\ ((rest = []
           /\ stack_order stack'
              = subdirs_order current entries ++ stack_order stack)
          \/ reached md_files' target = true).
Proof.
  induction entries as [|[name node] more IH];
    intros stack md sk stack' md' sk' H Hb; simpl in H.
  - injection H as <- <- <-. exists [], []. unfold accepted, rejected. simpl.
    rewrite !app_nil_r. repeat split; auto using tried_below_target_nil.
  - change (direct_files current (DirEntry name node :: more))
      with ((if is_dir node then [] else [(joinpath current name, node)])
            ++ direct_files current more).
    change (subdirs_order current (DirEntry name node :: more))
      with (subdirs_order current more
            ++ (if is_dir node then visit_order (joinpath current name) node
                else [])).
    destruct (is_dir node) eqn:Hdir.
    + apply IH in H; [|exact Hb].
      destruct H as (visited & rest & Hd & -> & -> & Hf & Ht & Hs).
      exists visited, rest. simpl.
      split; [exact Hd|]. split; [reflexivity|]. split; [reflexivity|].
      split; [exact Hf|]. split; [exact Ht|].
      destruct Hs as [[-> Hs]|Hs]; [left|right; exact Hs].
      split; [reflexivity|]. rewrite Hs, stack_order_cons, <- app_assoc. reflexivity.
    + pose proof (load_cases node Hdir) as Hload.
      assert (Hnot : reached md target = false)
        by (rewrite reached_below, Hb; reflexivity).
      destruct (load node) as [f|[e|e|e]] eqn:Hl; try discriminate.
      * assert (Hacc : accepted [(joinpath current name, node)]
                       = [(joinpath current name, f)])
          by (unfold accepted; simpl; rewrite Hl; reflexivity).
        assert (Hrej : rejected [(joinpath current name, node)] = [])
          by (unfold rejected; simpl; rewrite Hl; reflexivity).
        destruct (reached (md ++ [(joinpath current name, f)]) target) eqn:Hr.
        -- injection H as <- <- <-.
           exists [(joinpath current name, node)], (direct_files current more).
           rewrite Hacc, Hrej, app_nil_r.
           split; [reflexivity|]. split; [reflexivity|]. split; [reflexivity|].
           split; [constructor; [exact Hload|constructor]|].
           split; [|right; exact Hr].
           apply tried_below_target_cons; [exact Hb|apply tried_below_target_nil].
        -- apply IH in H; [|rewrite reached_below in Hr;
                            apply negb_false_iff in Hr; exact Hr].
           destruct H as (visited & rest & Hd & -> & -> & Hf & Ht & Hs).
           exists ((joinpath current name, node) :: visited), rest.
           change (accepted ((joinpath current name, node) :: visited))
             with (accepted ([(joinpath current name, node)] ++ visited)).
           change (rejected ((joinpath current name, node) :: visited))
             with (rejected ([(joinpath current name, node)] ++ visited)).
           rewrite accepted_app, rejected_app, Hacc, Hrej, Hd, <- !app_assoc.
           split; [reflexivity|]. split; [reflexivity|]. split; [reflexivity|].
           split; [constructor; [exact Hload|exact Hf]|].
           split; [apply tried_below_target_cons;
                   [exact Hb|rewrite Hacc; exact Ht]|].
           destruct Hs as [Hs|Hs]; [left; exact Hs|right].
           rewrite <- app_assoc in Hs. exact Hs.
      * rewrite Hnot in H. apply IH in H; [|exact Hb].
        assert (Hacc : accepted [(joinpath current name, node)] = [])
          by (unfold accepted; simpl; rewrite Hl; reflexivity).
        assert (Hrej : rejected [(joinpath current name, node)]
                       = [("Skipped " ++ path_str (joinpath current name)
                             ++ ": " ++ e)%string])
          by (unfold rejected; simpl; rewrite Hl; reflexivity).
        destruct H as (visited & rest & Hd & -> & -> & Hf & Ht & Hs).
        exists ((joinpath current name, node) :: visited), rest.
        change (accepted ((joinpath current name, node) :: visited))
          with (accepted ([(joinpath current name, node)] ++ visited)).
        change (rejected ((joinpath current name, node) :: visited))
          with (rejected ([(joinpath current name, node)] ++ visited)).
        rewrite accepted_app, rejected_app, Hacc, Hrej, Hd, <- !app_assoc.
        split; [reflexivity|]. split; [reflexivity|]. split; [reflexivity|].
        split; [constructor; [exact Hload|exact Hf]|].
        split; [|exact Hs].
        apply tried_below_target_cons; [exact Hb|].
        rewrite Hacc, app_nil_r. exact Ht.
Qed.

(** The walk tries the entries in [visit_order], one after the other, as
    long as the target is not reached: what it has tried when it returns is
    a prefix of that order, and it stops before the end only with the target
    reached. *)
Lemma walk_order target stack md_files skipped :
  forall md_files' skipped',
    walk target stack md_files skipped = Return (md_files', skipped') ->
    exists visited rest,
      stack_order stack = visited ++ rest
      /\ md_files' = md_files ++ accepted visited
      /\ skipped' = skipped ++ rejected visited
      /\ Forall is_file visited
      /\ tried_below_target target md_files visited
      /\ (rest = [] \/ reached md_files' target = true).
Proof.
  funelim (walk target stack md_files skipped); intros md1 sk1 Hw; tidy_walk.
  - injection Hw as <- <-. exists [], [].
    rewrite accepted_nil, rejected_nil, ?app_nil_r.
    repeat split; auto using tried_below_target_nil.
  - injection Hw as <- <-. exists [], (stack_order ((current, node) :: stack)).
    rewrite accepted_nil, rejected_nil, ?app_nil_r.
    split; [reflexivity|]. split; [reflexivity|]. split; [reflexivity|].
    split; [constructor|]. split; [apply tried_below_target_nil|].
    right. rewrite reached_below, Heq. reflexivity.
  - apply expand_Return in Hexp. destruct Hexp as (entries & -> & Hscan).
    apply scan_entries_order in Hscan; [|exact Heq].
    destruct Hscan as (v1 & r1 & Hd & -> & -> & Hf1 & Ht1 & Hs).
    rewrite stack_order_cons, visit_order_Directory, Hd.
    destruct Hs as [[-> Hs]|Hs].
    + match goal with IH : forall md sk, walk _ _ _ _ = _ -> _ |- _ =>
        destruct (IH _ _ Hw) as (v2 & r2 & Ho & -> & -> & Hf2 & Ht2 & Hr2) end.
      exists (v1 ++ v2), r2.
      rewrite accepted_app, rejected_app, app_nil_r, <- !app_assoc.
      rewrite Hs in Ho. rewrite Ho.
      split; [reflexivity|]. split; [reflexivity|]. split; [reflexivity|].
      split; [apply Forall_app; auto|].
      split; [apply tried_below_target_app; assumption|].
      destruct Hr2 as [Hr2|Hr2]; [left; exact Hr2|right].
      rewrite <- app_assoc in Hr2. exact Hr2.
    + rewrite (@walk_reached target stack' _ (skipped ++ rejected v1) Hs) in Hw.
      injection Hw as <- <-.
      exists v1, (r1 ++ subdirs_order current entries ++ stack_order stack).
      rewrite <- !app_assoc.
      split; [reflexivity|]. split; [reflexivity|]. split; [reflexivity|].
      split; [exact Hf1|]. split; [exact Ht1|right; exact Hs].
  - discriminate.
Qed.

(** ** Per-file errors in every run *)

Lemma reached_length {A B : Type} (l : list A) (l' : list B) target :
  length l = length l' -> reached l target = reached l' target.
Proof. unfold reached. intros ->. reflexivity. Qed.

(** What every returning run of the collector has done, whatever the bound:
    it tried a prefix of [visit_order], stopped early only with the target
    reached, and its two results are what that prefix contributes. *)
Lemma collect_order directory root max_files m skipped :
  collect_md_files directory root max_files = Return (m, skipped) ->
  exists visited rest,
    visit_order directory root = visited ++ rest
    /\ Forall is_file visited
    /\ tried_below_target (target_of max_files) [] visited
    /\ (rest = [] \/ reached m (target_of max_files) = true)
    /\ Permutation m (accepted visited)
    /\ skipped = rejected visited.
Proof.
  intros H. apply collect_inv in H. destruct H as (md & Hw & _ & ->).
  apply walk_order in Hw.
  destruct Hw as (visited & rest & Ho & -> & -> & Hf & Ht & Hr).
  exists visited, rest.
  rewrite stack_order_cons in Ho. simpl in Ho. rewrite app_nil_r in Ho.
  split; [exact Ho|]. split; [exact Hf|]. split; [exact Ht|].
  split; [|split; [apply sort_by_path_perm|reflexivity]].
  destruct Hr as [Hr|Hr]; [left; exact Hr|right].
  rewrite <- Hr. apply reached_length. apply Permutation_length.
  apply sort_by_path_perm.
Qed.

(** The first entry in the order of the walk that cannot be opened or
    scanned, when the walk gets to it before the target is reached, keeps
    the collector from returning. *)
Lemma collect_stops_at_fault directory root max_files visited path node rest :
  visit_order directory root = visited ++ (path, node) :: rest ->
  ~ is_file (path, node) ->
  below (accepted visited) (target_of max_files) = true ->
  forall m skipped,
    collect_md_files directory root max_files <> Return (m, skipped).
Proof.
  intros Ho Hn Hb m skipped H. apply collect_order in H.
  destruct H as (v & r & Ho' & Hf & _ & Hr & Hm & _).
  rewrite Ho in Ho'. symmetry in Ho'. apply app_eq_app in Ho'.
  assert (Hreached : r <> [] -> reached (accepted v) (target_of max_files) = true).
  { intros Hne. destruct Hr as [Hr|Hr]; [contradiction|].
    rewrite <- Hr. apply reached_length. symmetry. apply Permutation_length.
    exact Hm. }
  destruct Ho' as [l [[Hv Hl]|[Hv Hl]]].
  - destruct l as [|x l].
    + rewrite app_nil_r in Hv. subst v. simpl in Hl.
      assert (Hne : r <> []) by (rewrite <- Hl; discriminate).
      specialize (Hreached Hne). rewrite reached_below, Hb in Hreached.
      discriminate.
    + injection Hl as <- _. rewrite Forall_forall in Hf.
      apply Hn. apply Hf. rewrite Hv. apply in_or_app. right. left. reflexivity.
  - subst visited. rewrite accepted_app in Hb. apply below_prefix in Hb.
    rewrite Hreached in Hb; [discriminate|].
    rewrite Hl. destruct l; discriminate.
Qed.

(** C4, as the code has it: in every run, bounded or not, the files the
    walk gets to are a prefix of its order of visit; each of them opened; the
    skip messages are exactly the messages of those among them whose headers
    fail to parse, in that order, and the posts are the others; so a content
    error never aborts the walk and is always recorded. An entry that cannot
    be opened or scanned, met before the target is reached, aborts the run
    with [OSError]. *)
Theorem content_errors_recovered_io_errors_fatal (directory : Path)
    (root : fs_node) (max_files : option Z) :
  (healthy root ->
     exists m skipped,
       collect_md_files directory root max_files = Return (m, skipped))
  /\ (forall m skipped,
        collect_md_files directory root max_files = Return (m, skipped) ->
        exists visited rest,
          visit_order directory root = visited ++ rest
          /\ Forall is_file visited
          /\ tried_below_target (target_of max_files) [] visited
          /\ (rest = [] \/ reached m (target_of max_files) = true)
          /\ Permutation m (accepted visited)
          /\ skipped = rejected visited)
  /\ (forall visited path node rest,
        visit_order directory root = visited ++ (path, node) :: rest ->
        ~ is_file (path, node) ->
        below (accepted visited) (target_of max_files) = true ->
        exists msg,
          collect_md_files directory root max_files = Raise (OSError msg))
  /\ (forall m skipped path text msg,
        collect_md_files directory root None = Return (m, skipped) ->
        In (path, File text) (node_files directory root) ->
        MarkdownFile_init (open_text text) = Raise (InvalidMarkdownFile msg) ->
        In ("Skipped " ++ path_str path ++ ": " ++ msg)%string skipped)
  /\ (forall path err,
        In (path, BrokenFile err) (node_files directory root) ->
        exists msg, collect_md_files directory root None = Raise (OSError msg)).
Proof.
  split; [|split; [|split; [|split]]].
  - intros Hh. apply collect_total. assumption.
  - intros m skipped H. apply collect_order. exact H.
  - intros visited path node rest Ho Hn Hb.
    pose proof (@collect_stops_at_fault directory root max_files visited path
                  node rest Ho Hn Hb) as Hno.
    unfold collect_md_files in *. cbv zeta in *.
    destruct (walk (target_of max_files) [(directory, root)] [] [])
      as [[md sk]|e] eqn:Hw.
    + cbn [bind] in *. unfold list_sort in *.
      destruct (has_duplicate (map fst md)) eqn:Hd; cbn [bind] in *.
      * exfalso. clear Hno.
        apply walk_order in Hw.
        destruct Hw as (v & r & Ho' & -> & _ & Hf & _ & Hr).
        rewrite stack_order_cons in Ho'. simpl in Ho', Hr.
        rewrite app_nil_r in Ho'. rewrite Ho in Ho'. symmetry in Ho'.
        apply app_eq_app in Ho'. destruct Ho' as [l [[Hv Hl]|[Hv Hl]]].
        -- destruct l as [|x l].
           ++ rewrite app_nil_r in Hv. subst v. simpl in Hl.
              destruct Hr as [->|Hr]; [discriminate|].
              rewrite reached_below, Hb in Hr. discriminate.
           ++ injection Hl as <- _. rewrite Forall_forall in Hf.
              apply Hn. apply Hf. rewrite Hv. apply in_or_app. right. left.
              reflexivity.
        -- subst visited. rewrite accepted_app in Hb. apply below_prefix in Hb.
           destruct Hr as [->|Hr]; [destruct l; discriminate|]. congruence.
      * exfalso. eapply Hno. reflexivity.
    + cbn [bind]. apply walk_raises in Hw. destruct Hw as [msg ->]. eauto.
  - intros m skipped path text msg H Hin Hinit. apply collect_visits in H.
    destruct H as (visited & rest & _ & -> & _ & Hv & Hr).
    rewrite (Hr eq_refl), app_nil_r in Hv.
    unfold rejected. apply in_flat_map. exists (path, File text). split.
    + eapply Permutation_in; [symmetry; exact Hv|assumption].
    + unfold load. simpl. rewrite Hinit. left. reflexivity.
  - intros path err Hin. unfold collect_md_files. simpl.
    destruct (walk None [(directory, root)] [] []) as [[md sk]|e] eqn:Hw.
    + exfalso. apply walk_visits in Hw.
      destruct Hw as (visited & rest & _ & _ & Hf & Hv & Hr).
      rewrite (Hr eq_refl), app_nil_r in Hv. simpl in Hv. rewrite app_nil_r in Hv.
      rewrite Forall_forall in Hf.
      destruct (Hf (path, BrokenFile err)) as [text Ht]; [|discriminate].
      eapply Permutation_in; [symmetry; exact Hv|assumption].
    + apply walk_raises in Hw. destruct Hw as [msg ->]. simpl. eauto.
Qed.

(** ** A render failure, from the collector to the feed *)

Lemma collect_count_min directory root N m skipped :
  (0 < N)%Z ->
  collect_md_files directory root (Some N) = Return (m, skipped) ->
  Z.of_nat (length m)
  = Z.min N (Z.of_nat (length (accepted (node_files directory root)))).
Proof.
  intros HN H. apply collect_inv in H. destruct H as (md & Hw & _ & ->).
  rewrite (Permutation_length (sort_by_path_perm md)).
  assert (Ht : target_of (Some N) = Some N).
  { simpl. destruct (Z.eqb_spec N 0); [lia|reflexivity]. }
  rewrite Ht in Hw.
  pose proof Hw as Hle. apply walk_bound in Hle; [|simpl; lia].
  pose proof Hw as Hv. apply walk_visits in Hv.
  destruct Hv as (v & r & Hmd & _ & _ & Hp & _).
  simpl in Hmd, Hp. rewrite app_nil_r in Hp. subst md.
  assert (Hsub : length (accepted v)
                 <= length (accepted (node_files directory root))).
  { rewrite <- (Permutation_length (accepted_perm Hp)), accepted_app, length_app.
    lia. }
  destruct (Z.ltb_spec (Z.of_nat (length (accepted v))) N) as [Hlt|Hge]; [|lia].
  assert (Hb : below (accepted v) (Some N) = true) by (apply Z.ltb_lt; exact Hlt).
  pose proof Hw as Hw'. apply walk_unreached in Hw'; [|exact Hb].
  apply walk_visits in Hw'.
  destruct Hw' as (v' & r' & Hmd' & _ & _ & Hp' & Hr').
  simpl in Hmd', Hp'. rewrite (Hr' eq_refl), !app_nil_r in Hp'.
  rewrite Hmd' in Hlt |- *.
  rewrite (Permutation_length (accepted_perm Hp')) in Hlt |- *. lia.
Qed.

Lemma rendered_items_length md_files :
  length (rendered_items md_files)
  = length (filter (fun pf => renders (snd pf)) md_files).
Proof.
  unfold rendered_items, renders.
  induction md_files as [|[path f] more IH]; [reflexivity|].
  cbn [flat_map filter snd]. rewrite length_app, IH.
  destruct (markdown (unread (stream f))); reflexivity.
Qed.

(** C3, as the code has it. The collector accepts a file on its headers
    alone, whether or not it will render: an unbounded run returns every
    file whose headers parse, and a run bounded by [N] returns [min(N, e)]
    posts, where [e] counts every file whose headers parse, so a file that
    does not render takes a slot like any other. The failure shows only in
    [main]: for a collected file on which the renderer fails, [main]
    records the skip message with the renderer's diagnostic, leaves the
    path out of the included files, and builds the feed's items from the
    files that render and from no other, as many items as included files,
    fewer than were collected. *)
Theorem render_failure_skipped_by_main (directory : Path) (root : fs_node)
    (title0 description url : string) (now : datetime.t) :
  (forall m skipped path text f,
      collect_md_files directory root None = Return (m, skipped) ->
      In (path, File text) (node_files directory root) ->
      MarkdownFile_init (open_text text) = Return f ->
      In (path, f) m)
  /\ (forall N m skipped,
        (0 < N)%Z ->
        collect_md_files directory root (Some N) = Return (m, skipped) ->
        Z.of_nat (length m)
        = Z.min N (Z.of_nat (length (accepted (node_files directory root)))))
  /\ (forall max_files md_files errors path f stderr,
        collect_md_files directory root max_files = Return (md_files, errors) ->
        In (path, f) md_files ->
        markdown (whole (stream f)) = inr stderr ->
        exists rss_tree included errors',
          main directory root title0 description url max_files now
            = Return (Some rss_tree, included, errors')
          /\ In ("Skipped " ++ path_str path ++ ": "
                   ++ "Could not convert to Markdown " ++ stderr)%string errors'
          /\ ~ In path included
          /\ length included < length md_files
          /\ items rss_tree = rendered_items md_files
          /\ length (items rss_tree) = length included).
Proof.
  split; [|split].
  - intros m skipped path text f Hc Hin Hf.
    apply collect_unbounded in Hc; [|reflexivity].
    eapply Permutation_in; [symmetry; exact Hc|].
    apply in_accepted. exists (File text). split; [exact Hin|exact Hf].
  - intros N m skipped HN Hc. eapply collect_count_min; eassumption.
  - intros max_files md_files errors path f stderr Hc Hin Hm.
    destruct (@collected_from_tree directory root max_files md_files errors
                path f Hc Hin) as (text & _ & _ & Hs).
    assert (Hu : markdown (unread (stream f)) = inr stderr)
      by (rewrite Hs in *; exact Hm).
    pose proof Hc as Hnd. apply collect_sorted in Hnd. destruct Hnd as [_ Hnd].
    destruct (add_items_channel md_files
                (RssElementTree_init title0 description url None now) [] errors)
      as (tree' & Ht & _ & _ & _ & Hch).
    exists tree', (map fst (filter (fun pf => renders (snd pf)) md_files)),
      (errors ++ flat_map render_error md_files).
    assert (Hr : renders f = false) by (unfold renders; rewrite Hu; reflexivity).
    assert (Hitems : items tree' = rendered_items md_files).
    { unfold items. rewrite Hch, filter_app, filter_rendered_items. reflexivity. }
    split; [|split; [|split; [|split; [|split]]]].
    + unfold main. rewrite Hc. cbn [bind].
      destruct md_files as [|x more]; [destruct Hin|].
      rewrite Ht. reflexivity.
    + apply in_or_app. right. apply in_flat_map. exists (path, f).
      split; [assumption|]. unfold render_error. simpl. rewrite Hu. left.
      reflexivity.
    + intros Hp. apply in_map_iff in Hp. destruct Hp as ([p' f'] & Hfst & Hf').
      simpl in Hfst. subst p'. apply filter_In in Hf'. destruct Hf' as [Hf' Hr'].
      simpl in Hr'. rewrite (nodup_keys_functional _ _ _ _ Hnd Hin Hf') in Hr.
      congruence.
    + rewrite length_map.
      apply (filter_length_lt (fun pf => renders (snd pf)) md_files (path, f));
        assumption.
    + exact Hitems.
    + rewrite Hitems, rendered_items_length, length_map. reflexivity.
Qed.

(** X10: an [InvalidMarkdownFile] never leaves [collect_md_files] or
    [main]: the one raised by the header checks is caught in the walk and
    the one raised for a render failure is caught in the item loop, so
    whatever exception ends a run is not an [InvalidMarkdownFile]. *)
Theorem invalid_markdown_file_is_contained (directory : Path) (root : fs_node)
    (title0 description url : string) (max_files : option Z) (now : datetime.t) :
  (forall e,
      collect_md_files directory root max_files = Raise e ->
      forall msg, e <> InvalidMarkdownFile msg)
  /\ (forall e,
        main directory root title0 description url max_files now = Raise e ->
        forall msg, e <> InvalidMarkdownFile msg).
Proof.
  assert (Hcollect : forall e,
             collect_md_files directory root max_files = Raise e ->
             forall msg, e <> InvalidMarkdownFile msg).
  { intros e He msg ->. apply collect_raises in He.
    destruct He as [[m He]|[m He]]; discriminate. }
  split; [exact Hcollect|].
  intros e He. unfold main in He.
  destruct (collect_md_files directory root max_files) as [[md errors]|e'] eqn:Hc.
  - cbn [bind] in He. destruct md as [|x more]; [discriminate|].
    destruct (add_items_closed (x :: more)
                (RssElementTree_init title0 description url None now) [] errors)
      as (tree' & Ht).
    rewrite Ht in He. discriminate.
  - cbn [bind] in He. injection He as <-. apply Hcollect. reflexivity.
Qed.

End GenerateRss.

(** ** The properties on concrete inputs *)

Lemma alpha_beta_healthy : healthy alpha_beta.
Proof. repeat split. Qed.

Lemma three_posts_healthy : healthy three_posts.
Proof. repeat split. Qed.

(** C1: on the directory with [a.md] (Alpha, 2023-01-02) and [b.md] (Beta,
    2023-01-01) the collector returns [a.md] before [b.md]: the result is in
    path order, and it is not in non-decreasing order of (pub_date, title). *)
Theorem collect_not_sorted_by_date :
  exists a b,
    collect_md_files 0 sample_fromisoformat ["markdown"] alpha_beta None
      = Return ([(["markdown"; "a.md"], a); (["markdown"; "b.md"], b)], [])
    /\ title a = "Alpha" /\ title b = "Beta"
    /\ key_compare a b = Gt
    /\ ~ Sorted key_le [(["markdown"; "a.md"], a); (["markdown"; "b.md"], b)].
Proof.
  eexists _, _. split; [vm_compute; reflexivity|].
  split; [reflexivity|]. split; [reflexivity|]. split; [reflexivity|].
  intros Hs. inversion Hs as [|? ? _ Hhd]; subst.
  inversion Hhd as [|? ? Hle]; subst. apply Hle. reflexivity.
Qed.

Lemma collect_respects_max_files_witness :
  (exists m skipped,
      collect_md_files 0 sample_fromisoformat ["markdown"] three_posts (Some 1%Z)
        = Return (m, skipped)
      /\ (Z.of_nat (length m) <= 1)%Z)
  /\ (exists m skipped,
        collect_md_files 0 sample_fromisoformat ["markdown"] three_posts None
          = Return (m, skipped)
        /\ Permutation m
             (accepted 0 sample_fromisoformat (node_files ["markdown"] three_posts))).
Proof.
  destruct (collect_respects_max_files 0 sample_fromisoformat ["markdown"] three_posts)
    as (Hbound & Hall & Htotal).
  split.
  - destruct (Htotal three_posts_healthy (Some 1%Z)) as (m & skipped & H).
    exists m, skipped. split; [exact H|].
    apply (Hbound 1%Z m skipped); [lia|exact H].
  - destruct (Htotal three_posts_healthy None) as (m & skipped & H).
    exists m, skipped. split; [exact H|]. apply (Hall m skipped). exact H.
Defined.

Lemma collect_ordered_by_path_witness :
  exists m skipped,
    collect_md_files 0 sample_fromisoformat ["markdown"] three_posts None
      = Return (m, skipped)
    /\ map fst m
       = [["markdown"; "2023"; "c.md"]; ["markdown"; "a.md"]; ["markdown"; "b.md"]]
    /\ StronglySorted path_lt (map fst m).
Proof.
  eexists _, _. split; [vm_compute; reflexivity|]. split; [reflexivity|].
  eapply (@collect_ordered_by_path 0 sample_fromisoformat ["markdown"] three_posts None).
  vm_compute. reflexivity.
Defined.

Lemma max_files_zero_is_unlimited_witness :
  exists m skipped,
    collect_md_files 0 sample_fromisoformat ["markdown"] three_posts (Some 0%Z)
      = Return (m, skipped)
    /\ length m = 3
    /\ Permutation m
         (accepted 0 sample_fromisoformat (node_files ["markdown"] three_posts)).
Proof.
  eexists _, _. split; [vm_compute; reflexivity|]. split; [reflexivity|].
  eapply (proj2 (max_files_zero_is_unlimited 0 sample_fromisoformat
                   ["markdown"] three_posts)).
  vm_compute. reflexivity.
Defined.

(** With [max_files = 1], a post whose headers parse and whose rendering
    fails is the one post the collector returns: it took the only slot, the
    good post after it is never tried, and [main] ends with a feed that has
    no item. *)
Lemma render_failure_consumes_slot :
  exists f rss_tree,
    collect_md_files 0 sample_fromisoformat ["markdown"] broken_then_good
      (Some 1%Z)
      = Return ([(["markdown"; "broken.md"], f)], [])
    /\ sample_markdown (whole (stream f)) = inr "markdown: conversion failed"
    /\ main 0 sample_fromisoformat sample_strftime sample_markdown
         ["markdown"] broken_then_good "Title" "Description" "https://example.org/"
         (Some 1%Z) sample_now
       = Return (Some rss_tree, [],
                 ["Skipped markdown/broken.md: Could not convert to Markdown markdown: conversion failed"])
    /\ items rss_tree = [].
Proof.
  eexists _, _. split; [vm_compute; reflexivity|].
  split; [vm_compute; reflexivity|].
  split; [vm_compute; reflexivity|]. reflexivity.
Qed.

(** A file that cannot be opened is not turned into a skip message: the
    [OSError] leaves [collect_md_files], although every directory of the
    tree can be scanned. *)
Lemma unopenable_file_aborts_walk :
  scandir locked_file
    = Return [ DirEntry "locked.md" (BrokenFile "Permission denied");
               DirEntry "a.md" (File (post_text "Alpha" "2023-01-02" "Body A")) ]
  /\ collect_md_files 0 sample_fromisoformat ["markdown"] locked_file None
     = Raise (OSError "Permission denied")
  /\ main 0 sample_fromisoformat sample_strftime sample_markdown
       ["markdown"] locked_file "Title" "Description" "https://example.org/"
       None sample_now
     = Raise (OSError "Permission denied").
Proof. repeat split. Qed.

(** A title header with nothing after the marker is accepted, and the title
    of the file that is built is the empty string. *)
Lemma empty_title_accepted :
  exists f,
    MarkdownFile_init 0 sample_fromisoformat (open_text blank_title_text)
      = Return f
    /\ title f = "".
Proof. eexists. split; [vm_compute; reflexivity|reflexivity]. Qed.

Lemma title_from_header_witness :
  MarkdownFile_init 0 sample_fromisoformat (open_text "no headers here")
    = Raise (InvalidMarkdownFile "Missing title header").
Proof.
  apply (proj2 (title_from_header 0 sample_fromisoformat
                  (open_text "no headers here"))).
  vm_compute. reflexivity.
Defined.

Lemma explicit_offset_replaced_witness :
  exists f,
    MarkdownFile_init (-28800) sample_fromisoformat
      (open_text (post_text "Zoned" "2023-01-02T10:30:00+02:00" "Body"))
      = Return f
    /\ datetime.clock (pub_date f) = [2023; 1; 2; 10; 30; 0; 0]%Z
    /\ datetime.tzinfo (pub_date f) = Some (-28800)%Z.
Proof.
  destruct (MarkdownFile_init (-28800) sample_fromisoformat
              (open_text (post_text "Zoned" "2023-01-02T10:30:00+02:00" "Body")))
    as [f|e] eqn:H; [|vm_compute in H; discriminate].
  exists f. split; [reflexivity|].
  apply (@explicit_offset_replaced (-28800) sample_fromisoformat
           (open_text (post_text "Zoned" "2023-01-02T10:30:00+02:00" "Body")) f
           (datetime.mk 2023 1 2 10 30 0 0 (Some 7200%Z)) 7200 H).
  - vm_compute. reflexivity.
  - reflexivity.
Defined.

(** ** Further properties on concrete inputs *)

Lemma title_is_trimmed_line_witness :
  exists f,
    MarkdownFile_init 0 sample_fromisoformat
      (open_text (post_text "  Alpha  " "2023-01-02" "Body A")) = Return f
    /\ title f = "Alpha"
    /\ trimmed (title f) /\ contains LF (title f) = false.
Proof.
  eexists. split; [vm_compute; reflexivity|]. split; [reflexivity|].
  apply (@title_is_trimmed_line 0 sample_fromisoformat
           (open_text (post_text "  Alpha  " "2023-01-02" "Body A"))).
  vm_compute. reflexivity.
Defined.

Lemma date_header_errors_witness :
  MarkdownFile_init 0 sample_fromisoformat
    (open_text ("# Alpha" ++ newline ++ "## 2023-01-02" ++ newline ++ "Body A"))
    = Raise (InvalidMarkdownFile "Missing date header")
  /\ MarkdownFile_init 0 sample_fromisoformat
       (open_text (post_text "Alpha" "yesterday" "Body A"))
     = Raise (InvalidMarkdownFile "Date header is not a valid ISO date").
Proof.
  split.
  - apply (proj1 (@date_header_errors 0 sample_fromisoformat
                    (open_text ("# Alpha" ++ newline ++ "## 2023-01-02"
                                  ++ newline ++ "Body A"))
                    eq_refl)).
    reflexivity.
  - apply (proj2 (@date_header_errors 0 sample_fromisoformat
                    (open_text (post_text "Alpha" "yesterday" "Body A"))
                    eq_refl)); reflexivity.
Defined.

Lemma content_renders_whole_text_witness :
  exists f,
    MarkdownFile_init 0 sample_fromisoformat
      (open_text (post_text "Alpha" "2023-01-02" "Body A")) = Return f
    /\ stream f = open_text (post_text "Alpha" "2023-01-02" "Body A")
    /\ MarkdownFile_content sample_markdown f
       = Return ("<p>" ++ post_text "Alpha" "2023-01-02" "Body A" ++ "</p>")%string.
Proof.
  eexists. split; [vm_compute; reflexivity|].
  apply (@content_renders_whole_text 0 sample_fromisoformat sample_markdown
           (open_text (post_text "Alpha" "2023-01-02" "Body A"))).
  vm_compute. reflexivity.
Defined.

Lemma parse_post_text_witness :
  MarkdownFile_init 0 sample_fromisoformat
    (open_text (post_text "Alpha " " 2023-01-02" "Body A"))
  = Return (mkMarkdownFile
              (open_text (post_text "Alpha " " 2023-01-02" "Body A"))
              "Alpha"
              (datetime.mk 2023 1 2 0 0 0 0 (Some 0%Z))).
Proof.
  exact (@parse_post_text 0 sample_fromisoformat "Alpha " " 2023-01-02" "Body A"
           eq_refl eq_refl).
Defined.

Lemma collect_returns_min_witness :
  (exists m skipped,
      collect_md_files 0 sample_fromisoformat ["markdown"] three_posts (Some 2%Z)
        = Return (m, skipped)
      /\ length m = 2)
  /\ (exists m skipped,
        collect_md_files 0 sample_fromisoformat ["markdown"] three_posts (Some 5%Z)
          = Return (m, skipped)
        /\ length m = 3).
Proof.
  split.
  - destruct (collect_md_files 0 sample_fromisoformat ["markdown"] three_posts
                (Some 2%Z)) as [[m skipped]|e] eqn:Hc;
      [|vm_compute in Hc; discriminate].
    exists m, skipped. split; [reflexivity|].
    pose proof (@collect_returns_min 0 sample_fromisoformat ["markdown"]
                  three_posts 2%Z m skipped eq_refl Hc) as H.
    vm_compute in H. apply Nat2Z.inj. exact H.
  - destruct (collect_md_files 0 sample_fromisoformat ["markdown"] three_posts
                (Some 5%Z)) as [[m skipped]|e] eqn:Hc;
      [|vm_compute in Hc; discriminate].
    exists m, skipped. split; [reflexivity|].
    pose proof (@collect_returns_min 0 sample_fromisoformat ["markdown"]
                  three_posts 5%Z m skipped eq_refl Hc) as H.
    vm_compute in H. apply Nat2Z.inj. exact H.
Defined.

Lemma collect_sound_witness :
  exists m skipped,
    collect_md_files 0 sample_fromisoformat ["markdown"] three_posts (Some 2%Z)
      = Return (m, skipped)
    /\ (forall path f,
          In (path, f) m ->
          exists text,
            In (path, File text) (node_files ["markdown"] three_posts)
            /\ MarkdownFile_init 0 sample_fromisoformat (open_text text) = Return f)
    /\ length m + length skipped <= 4.
Proof.
  destruct (collect_md_files 0 sample_fromisoformat ["markdown"] three_posts
              (Some 2%Z)) as [[m skipped]|e] eqn:Hc;
    [|vm_compute in Hc; discriminate].
  exists m, skipped. split; [reflexivity|].
  destruct (@collect_sound 0 sample_fromisoformat ["markdown"] three_posts
              (Some 2%Z) m skipped Hc) as (Hposts & _ & Hcount).
  split; [exact Hposts|exact Hcount].
Defined.

Lemma collect_independent_of_listing_order_witness :
  exists m skipped1 skipped2,
    collect_md_files 0 sample_fromisoformat ["markdown"] alpha_beta None
      = Return (m, skipped1)
    /\ collect_md_files 0 sample_fromisoformat ["markdown"] beta_alpha None
       = Return (m, skipped2)
    /\ Permutation skipped1 skipped2.
Proof.
  destruct (collect_md_files 0 sample_fromisoformat ["markdown"] alpha_beta None)
    as [[m1 skipped1]|e] eqn:H1; [|vm_compute in H1; discriminate].
  destruct (collect_md_files 0 sample_fromisoformat ["markdown"] beta_alpha None)
    as [[m2 skipped2]|e] eqn:H2; [|vm_compute in H2; discriminate].
  destruct (@collect_independent_of_listing_order 0 sample_fromisoformat
              ["markdown"] alpha_beta beta_alpha m1 skipped1 m2 skipped2
              (perm_swap _ _ []) H1 H2) as [Hm Hs].
  exists m1, skipped1, skipped2. rewrite Hm. repeat split. exact Hs.
Defined.

Lemma main_items_follow_mapping_witness :
  exists rss_tree included errors',
    main 0 sample_fromisoformat sample_strftime sample_markdown
      ["markdown"] broken_then_good "Title" "Description" "https://example.org/"
      None sample_now
      = Return (Some rss_tree, included, errors')
    /\ included = [["markdown"; "good.md"]]
    /\ map item_title (items rss_tree) = [Some "Good"]
    /\ length (children_of (channel rss_tree)) = 8
    /\ StronglySorted path_lt included.
Proof.
  destruct (collect_md_files 0 sample_fromisoformat ["markdown"] broken_then_good None)
    as [[md_files errors]|e] eqn:Hc; [|vm_compute in Hc; discriminate].
  destruct (main 0 sample_fromisoformat sample_strftime sample_markdown
              ["markdown"] broken_then_good "Title" "Description"
              "https://example.org/" None sample_now)
    as [[[[rss_tree|] included] errors']|e] eqn:Hm;
    try (vm_compute in Hm; discriminate).
  destruct (@main_items_follow_mapping 0 sample_fromisoformat sample_strftime
              sample_markdown ["markdown"] broken_then_good "Title" "Description"
              "https://example.org/" None sample_now md_files errors rss_tree
              included errors' Hc Hm) as (Hch & _ & Hinc & Htitles & Hsorted).
  exists rss_tree, included, errors'. split; [reflexivity|].
  vm_compute in Hc. injection Hc as <- _.
  split; [rewrite Hinc; vm_compute; reflexivity|].
  split; [rewrite Htitles; vm_compute; reflexivity|].
  split; [rewrite Hch; vm_compute; reflexivity|exact Hsorted].
Defined.

Lemma main_error_log_witness :
  exists rss_tree included errors',
    main 0 sample_fromisoformat sample_strftime sample_markdown
      ["markdown"]
      (Directory
         [ DirEntry "notes.txt" (File "no headers here");
           DirEntry "broken.md" (File (post_text "Broken" "2023-01-01" "Body"));
           DirEntry "good.md" (File (post_text "Good" "2023-01-02" "Body")) ])
      "Title" "Description" "https://example.org/" None sample_now
      = Return (Some rss_tree, included, errors')
    /\ errors'
       = [ "Skipped markdown/notes.txt: Missing title header";
           "Skipped markdown/broken.md: Could not convert to Markdown markdown: conversion failed" ].
Proof.
  set (root := Directory
         [ DirEntry "notes.txt" (File "no headers here");
           DirEntry "broken.md" (File (post_text "Broken" "2023-01-01" "Body"));
           DirEntry "good.md" (File (post_text "Good" "2023-01-02" "Body")) ]).
  destruct (collect_md_files 0 sample_fromisoformat ["markdown"] root None)
    as [[md_files errors]|e] eqn:Hc; [|vm_compute in Hc; discriminate].
  destruct (main 0 sample_fromisoformat sample_strftime sample_markdown
              ["markdown"] root "Title" "Description"
              "https://example.org/" None sample_now)
    as [[[[rss_tree|] included] errors']|e] eqn:Hm;
    try (vm_compute in Hm; discriminate).
  destruct (@main_error_log 0 sample_fromisoformat sample_strftime
              sample_markdown ["markdown"] root "Title" "Description"
              "https://example.org/" None sample_now md_files errors rss_tree
              included errors' Hc Hm) as (Herr & _).
  exists rss_tree, included, errors'. split; [reflexivity|].
  vm_compute in Hc. injection Hc as <- <-. rewrite Herr. vm_compute. reflexivity.
Defined.

Lemma bounded_within_unbounded_witness :
  exists m skipped m_all skipped_all,
    collect_md_files 0 sample_fromisoformat ["markdown"] three_posts (Some 1%Z)
      = Return (m, skipped)
    /\ collect_md_files 0 sample_fromisoformat ["markdown"] three_posts None
       = Return (m_all, skipped_all)
    /\ incl m m_all /\ incl skipped skipped_all.
Proof.
  destruct (collect_md_files 0 sample_fromisoformat ["markdown"] three_posts
              (Some 1%Z)) as [[m skipped]|e] eqn:Hb;
    [|vm_compute in Hb; discriminate].
  destruct (collect_md_files 0 sample_fromisoformat ["markdown"] three_posts None)
    as [[m_all skipped_all]|e] eqn:Hu; [|vm_compute in Hu; discriminate].
  exists m, skipped, m_all, skipped_all.
  split; [reflexivity|]. split; [reflexivity|].
  exact (@bounded_within_unbounded 0 sample_fromisoformat ["markdown"] three_posts
           (Some 1%Z) m skipped m_all skipped_all Hb Hu).
Defined.

Lemma unbounded_accounts_for_every_file_witness :
  exists m skipped,
    collect_md_files 0 sample_fromisoformat ["markdown"] three_posts None
      = Return (m, skipped)
    /\ length m + length skipped = 4.
Proof.
  destruct (collect_md_files 0 sample_fromisoformat ["markdown"] three_posts None)
    as [[m skipped]|e] eqn:Hc; [|vm_compute in Hc; discriminate].
  exists m, skipped. split; [reflexivity|].
  exact (proj1 (@unbounded_accounts_for_every_file 0 sample_fromisoformat
                  ["markdown"] three_posts m skipped Hc)).
Defined.

Lemma collect_takes_first_listed_witness :
  exists m,
    collect_md_files 0 sample_fromisoformat ["markdown"]
      (Directory (fst good_then_faults ++ snd good_then_faults)) (Some 1%Z)
      = Return (m, [])
    /\ map fst m = [["markdown"; "b.md"]].
Proof.
  destruct (@collect_takes_first_listed 0 sample_fromisoformat ["markdown"]
              (fst good_then_faults) (snd good_then_faults)) as (m & Hc & Hp).
  - constructor; [|constructor]. eexists _, _. split; [reflexivity|].
    vm_compute. reflexivity.
  - discriminate.
  - reflexivity.
  - exists m. split; [exact Hc|].
    vm_compute in Hp. symmetry in Hp. apply Permutation_length_1_inv in Hp.
    rewrite Hp. reflexivity.
Defined.

(** ** Per-file errors and the feed on concrete inputs *)

Lemma render_failure_skipped_by_main_witness :
  (exists m skipped f,
      collect_md_files 0 sample_fromisoformat ["markdown"] broken_then_good None
        = Return (m, skipped)
      /\ In (["markdown"; "broken.md"], f) m
      /\ sample_markdown (whole (stream f)) = inr "markdown: conversion failed")
  /\ (exists m skipped,
        collect_md_files 0 sample_fromisoformat ["markdown"] broken_then_good
          (Some 1%Z) = Return (m, skipped)
        /\ length m = 1)
  /\ (exists rss_tree included errors',
        main 0 sample_fromisoformat sample_strftime sample_markdown
          ["markdown"] broken_then_good "Title" "Description"
          "https://example.org/" None sample_now
          = Return (Some rss_tree, included, errors')
        /\ In "Skipped markdown/broken.md: Could not convert to Markdown markdown: conversion failed"
             errors'
        /\ ~ In ["markdown"; "broken.md"] included
        /\ length included < 2
        /\ map item_title (items rss_tree) = [Some "Good"]
        /\ length (items rss_tree) = length included).
Proof.
  destruct (collect_md_files 0 sample_fromisoformat ["markdown"] broken_then_good None)
    as [[m skipped]|e] eqn:Hc; [|vm_compute in Hc; discriminate].
  destruct (MarkdownFile_init 0 sample_fromisoformat
              (open_text (post_text "Broken" "2023-01-01" "Body")))
    as [f|e] eqn:Hf; [|vm_compute in Hf; discriminate].
  destruct (collect_md_files 0 sample_fromisoformat ["markdown"] broken_then_good
              (Some 1%Z)) as [[m1 skipped1]|e] eqn:Hc1;
    [|vm_compute in Hc1; discriminate].
  destruct (@render_failure_skipped_by_main 0 sample_fromisoformat sample_strftime
              sample_markdown ["markdown"] broken_then_good "Title" "Description"
              "https://example.org/" sample_now) as (HA & HB & HC).
  assert (Hin : In (["markdown"; "broken.md"], f) m).
  { apply (HA m skipped ["markdown"; "broken.md"]
              (post_text "Broken" "2023-01-01" "Body") f Hc);
      [left; reflexivity|exact Hf]. }
  assert (Hm : sample_markdown (whole (stream f)) = inr "markdown: conversion failed").
  { vm_compute in Hf. injection Hf as <-. reflexivity. }
  assert (Hlen : length m = 2)
    by (vm_compute in Hc; injection Hc as <- _; reflexivity).
  split; [|split].
  - exists m, skipped, f. split; [reflexivity|]. split; [exact Hin|exact Hm].
  - exists m1, skipped1. split; [reflexivity|].
    pose proof (HB 1%Z m1 skipped1 eq_refl Hc1) as H.
    vm_compute in H. apply Nat2Z.inj. exact H.
  - destruct (HC None m skipped ["markdown"; "broken.md"] f
                 "markdown: conversion failed" Hc Hin Hm)
      as (rss_tree & included & errors' & Hmain & Herr & Hnot & Hlt & Hitems
          & Hcount).
    exists rss_tree, included, errors'. rewrite <- Hlen.
    split; [exact Hmain|]. split; [exact Herr|]. split; [exact Hnot|].
    split; [exact Hlt|]. split; [|exact Hcount].
    rewrite Hitems. vm_compute in Hc. injection Hc as <- _.
    vm_compute. reflexivity.
Defined.

Lemma content_errors_recovered_io_errors_fatal_witness :
  (exists m skipped visited rest,
      collect_md_files 0 sample_fromisoformat ["markdown"] notes_first (Some 1%Z)
        = Return (m, skipped)
      /\ visit_order ["markdown"] notes_first = visited ++ rest
      /\ Forall is_file visited
      /\ (rest = [] \/ reached m (Some 1%Z) = true)
      /\ Permutation m (accepted 0 sample_fromisoformat visited)
      /\ skipped = rejected 0 sample_fromisoformat visited)
  /\ (exists msg,
        collect_md_files 0 sample_fromisoformat ["markdown"] locked_file
          (Some 5%Z) = Raise (OSError msg))
  /\ (exists m skipped,
        collect_md_files 0 sample_fromisoformat ["markdown"] three_posts None
          = Return (m, skipped)
        /\ In "Skipped markdown/2023/notes.txt: Missing title header" skipped)
  /\ (exists msg,
        collect_md_files 0 sample_fromisoformat ["markdown"] locked_file None
          = Raise (OSError msg)).
Proof.
  split; [|split; [|split]].
  - destruct (content_errors_recovered_io_errors_fatal 0 sample_fromisoformat
                ["markdown"] notes_first (Some 1%Z)) as (Htotal & Horder & _).
    destruct Htotal as (m & skipped & H); [repeat split|].
    destruct (Horder m skipped H) as (visited & rest & Ho & Hf & _ & Hr & Hp & Hs).
    exists m, skipped, visited, rest. repeat split; assumption.
  - destruct (content_errors_recovered_io_errors_fatal 0 sample_fromisoformat
                ["markdown"] locked_file (Some 5%Z)) as (_ & _ & Hfault & _).
    apply (Hfault [] ["markdown"; "locked.md"] (BrokenFile "Permission denied")
             [(["markdown"; "a.md"], File (post_text "Alpha" "2023-01-02" "Body A"))]).
    + reflexivity.
    + intros [text Ht]. discriminate.
    + reflexivity.
  - destruct (content_errors_recovered_io_errors_fatal 0 sample_fromisoformat
                ["markdown"] three_posts None) as (Htotal & _ & _ & Hskip & _).
    destruct (Htotal three_posts_healthy) as (m & skipped & H).
    exists m, skipped. split; [exact H|].
    apply (Hskip m skipped ["markdown"; "2023"; "notes.txt"] "no headers here"
                 "Missing title header" H).
    + vm_compute. right. right. left. reflexivity.
    + vm_compute. reflexivity.
  - destruct (content_errors_recovered_io_errors_fatal 0 sample_fromisoformat
                ["markdown"] locked_file None) as (_ & _ & _ & _ & Hfatal).
    apply (Hfatal ["markdown"; "locked.md"] "Permission denied").
    vm_compute. left. reflexivity.
Defined.

Lemma empty_collection_no_feed_witness :
  exists msg,
    main 0 sample_fromisoformat sample_strftime sample_markdown
      ["markdown"] (Directory [DirEntry "notes.txt" (File "no headers here")])
      "Title" "Description" "https://example.org/" None sample_now
      = Return (None, [], [msg])
    /\ msg = ("No markdown files found in markdown"
                ++ " (we are dumb and only check for "
                ++ String DQUOTE (".md" ++ String DQUOTE " fileextensions)"))%string
    /\ String.prefix "No markdown files found in " msg = true
    /\ msg <> "".
Proof.
  apply (@empty_collection_no_feed 0 sample_fromisoformat sample_strftime
           sample_markdown ["markdown"]
           (Directory [DirEntry "notes.txt" (File "no headers here")])
           "Title" "Description" "https://example.org/" None sample_now
           ["Skipped markdown/notes.txt: Missing title header"]).
  vm_compute. reflexivity.
Defined.

Lemma invalid_markdown_file_is_contained_witness :
  (forall msg, OSError "Permission denied" <> InvalidMarkdownFile msg)
  /\ (forall e,
        collect_md_files 0 sample_fromisoformat ["markdown"] notes_first None
          = Raise e -> forall msg, e <> InvalidMarkdownFile msg).
Proof.
  split.
  - apply (proj2 (@invalid_markdown_file_is_contained 0 sample_fromisoformat
                    sample_strftime sample_markdown ["markdown"] locked_file
                    "Title" "Description" "https://example.org/" None sample_now)
                 (OSError "Permission denied")).
    vm_compute. reflexivity.
  - apply (proj1 (@invalid_markdown_file_is_contained 0 sample_fromisoformat
                    sample_strftime sample_markdown ["markdown"] notes_first
                    "Title" "Description" "https://example.org/" None sample_now)).
Defined.
